(** * Atom: slot storage and attribute dispatch (atom/src/atom.cpp)

    A shallow embedding of the [Atom] type of [atom.cpp]: the per-instance
    slot array, the shared class map, lazy default production through the
    member's handler chain, the trusted write path, initialisation from
    keyword arguments, the traverse/clear pair of the cycle collector,
    construction and destruction, and the post-setattr hook.

    Objects are addresses; reference counts live in the heap next to the
    instance.  Python callables and the generic attribute store belong to
    the host interpreter and are taken through the [Host] interface. *)

From Stdlib Require Import ZArith String.
From stdpp Require Import base tactics option list functions.

Open Scope Z_scope.
Open Scope nat_scope.

(** ** Objects, errors and results *)

(** A [PyObject*] that is not NULL: the address of the object. *)
Definition PyObj := nat.

(** The error indicator left behind by a failing call. *)
Inductive exn : Type :=
| TypeError (msg : string)      (* py_type_fail *)
| SystemError (msg : string)    (* py_bad_internal_call *)
| MemoryError                   (* PyErr_NoMemory *)
| PyErr (e : PyObj).            (* an exception raised by host code *)

(** How a C function of the module ends: with a value, with NULL (or -1)
    and the error indicator set, or by undefined behaviour (a read through
    a NULL pointer, an access outside the slot array). *)
Inductive outcome (A : Type) : Type :=
| Ret (a : A)
| Raise (e : exn)
| Fault.
Arguments Ret {A} a.
Arguments Raise {A} e.
Arguments Fault {A}.

(** ** Member descriptors and class maps *)

(** Modelled from the spec: member.h is not among the sources.  A member
    is an object of its own carrying up to four optional handlers; NULL
    handler fields are [None].  Field names are those [atom.cpp] reads. *)
Record Member : Type := mkMember {
  member_ob : PyObj;
  default_handler : option PyObj;
  validate_handler : option PyObj;
  post_validate_handler : option PyObj;
  post_setattr_handler : option PyObj
}.

(** Modelled from the spec: class_map.h is not among the sources.  The
    class map is an immutable object holding the number of declared
    members and the table from member name to (descriptor, slot index). *)
Record ClassMap : Type := mkClassMap {
  class_map_ob : PyObj;
  member_count : nat;
  members : PyObj -> option (Member * nat)
}.

(** ** The heap *)

(** One [Atom] instance with the reference counts of all objects and the
    rest of the interpreter state [W].  [slots] is [self->slots] with NULL
    entries as [None]; [class_map] is [self->class_map], [None] when NULL. *)
Record Heap (W : Type) : Type := mkHeap {
  slots : list (option PyObj);
  class_map : option ClassMap;
  ob_refcnt : PyObj -> Z;
  host : W
}.
Arguments mkHeap {W} _ _ _ _.
Arguments slots {W} _.
Arguments class_map {W} _.
Arguments ob_refcnt {W} _.
Arguments host {W} _.

(** What the module does to the outside, in program order. *)
Inductive event : Type :=
| EvIncref (o : PyObj)
| EvDecref (o : PyObj)
| EvCall (f : PyObj) (args : list PyObj) (r : outcome PyObj)
| EvVisit (o : PyObj) (r : Z).

(** A [visitproc] together with its [arg]: the collector's callback works
    on interpreter state only and answers with an int. *)
Definition visitproc (W : Type) : Type := PyObj -> W -> W * Z.

(** The host interpreter.  [NullObject] comes from null_object.h, which is
    not among the sources, and is kept apart from [Py_None] as in the code.
    [PyTuple_New n h] tells whether an [n]-tuple can be allocated in [h]. *)
Class Host (W : Type) : Type := mkHost {
  Py_None : PyObj;
  NullObject : PyObj;
  PyTuple_New : nat -> Heap W -> bool;
  PyObject_Call : PyObj -> list PyObj -> Heap W -> Heap W * outcome PyObj;
  PyObject_GenericGetAttr : PyObj -> PyObj -> Heap W -> Heap W * outcome PyObj;
  PyObject_GenericSetAttr :
    PyObj -> PyObj -> option PyObj -> Heap W -> Heap W * outcome Z
}.

(** class_map.h is not among the sources, and neither [atom.cpp] nor the
    spec says what its accessor [ClassMap_MemberCount] does with a NULL
    class map.  That is a parameter: the count it answers, or nothing when
    the read is undefined. *)
Class ClassMapHeader : Type := mkClassMapHeader {
  MemberCount_of_NULL : option nat
}.

(** ** The computation monad: heap state, an event log, three-way results *)

Definition M (W A : Type) : Type :=
  Heap W -> list event * Heap W * outcome A.

Definition ret {W A} (a : A) : M W A := fun h => ([], h, Ret a).

Definition bind {W A B} (m : M W A) (k : A -> M W B) : M W B := fun h =>
  match m h with
  | (l1, h1, Ret a) =>
      match k a h1 with (l2, h2, r) => (l1 ++ l2, h2, r) end
  | (l1, h1, Raise e) => (l1, h1, Raise e)
  | (l1, h1, Fault) => (l1, h1, Fault)
  end.

Definition raise {W A} (e : exn) : M W A := fun h => ([], h, Raise e).
Definition fault {W A} : M W A := fun h => ([], h, Fault).

(** Run [m] and hand its failure over as a value; undefined behaviour is
    not caught. *)
Definition attempt {W A} (m : M W A) : M W (outcome A) := fun h =>
  match m h with
  | (l1, h1, Fault) => (l1, h1, Fault)
  | (l1, h1, r) => (l1, h1, Ret r)
  end.

Definition lift {W A} (r : outcome A) : M W A := fun h => ([], h, r).

Declare Scope atom_scope.
Delimit Scope atom_scope with atom.
Notation "x <- m ;; k" := (bind m (fun x => k))
  (at level 100, m at next level, right associativity) : atom_scope.
Notation "m ;;; k" := (bind m (fun _ => k))
  (at level 100, right associativity) : atom_scope.
Open Scope atom_scope.

Fixpoint for_each {W A} (body : A -> M W unit) (xs : list A) : M W unit :=
  match xs with
  | [] => ret tt
  | x :: xs' => body x ;;; for_each body xs'
  end.

(** ** Primitive heap operations *)

Section Primitives.
Context {W : Type} {CH : ClassMapHeader}.

Definition set_slots (s : list (option PyObj)) (h : Heap W) : Heap W :=
  mkHeap s (class_map h) (ob_refcnt h) (host h).
Definition set_class_map (c : option ClassMap) (h : Heap W) : Heap W :=
  mkHeap (slots h) c (ob_refcnt h) (host h).
Definition set_refcnt (rc : PyObj -> Z) (h : Heap W) : Heap W :=
  mkHeap (slots h) (class_map h) rc (host h).
Definition set_host (w : W) (h : Heap W) : Heap W :=
  mkHeap (slots h) (class_map h) (ob_refcnt h) w.

Definition incref (o : PyObj) (h : Heap W) : Heap W :=
  set_refcnt (<[o := (ob_refcnt h o + 1)%Z]> (ob_refcnt h)) h.
Definition decref (o : PyObj) (h : Heap W) : Heap W :=
  set_refcnt (<[o := (ob_refcnt h o - 1)%Z]> (ob_refcnt h)) h.

Definition Py_INCREF (o : PyObj) : M W unit :=
  fun h => ([EvIncref o], incref o h, Ret tt).
Definition Py_DECREF (o : PyObj) : M W unit :=
  fun h => ([EvDecref o], decref o h, Ret tt).
Definition Py_XINCREF (o : option PyObj) : M W unit :=
  match o with Some p => Py_INCREF p | None => ret tt end.

(** [self->slots[i]] as an rvalue and as an lvalue. *)
Definition read_slot (i : nat) : M W (option PyObj) := fun h =>
  match slots h !! i with
  | Some v => ([], h, Ret v)
  | None => ([], h, Fault)
  end.
Definition write_slot (i : nat) (v : option PyObj) : M W unit := fun h =>
  if decide (i < length (slots h))
  then ([], set_slots (<[i := v]> (slots h)) h, Ret tt)
  else ([], h, Fault).

Definition read_class_map : M W (option ClassMap) :=
  fun h => ([], h, Ret (class_map h)).
Definition write_class_map (c : option ClassMap) : M W unit :=
  fun h => ([], set_class_map c h, Ret tt).

(** Modelled from the spec: [ClassMap_MemberCount] of class_map.h is not
    among the sources.  It answers the member count of the class map it is
    given; for a NULL pointer it does what [MemberCount_of_NULL] says. *)
Definition ClassMap_MemberCount (map : option ClassMap) : M W nat :=
  match map with
  | Some cm => ret (member_count cm)
  | None =>
      match MemberCount_of_NULL with
      | Some n => ret n
      | None => fault
      end
  end.
(** Modelled from the spec: [ClassMap_LookupMember] of class_map.h is not
    among the sources.  The table answers a name with its descriptor and
    slot index, or with nothing ([member] stays NULL). *)
Definition ClassMap_LookupMember (map : option ClassMap) (name : PyObj)
  : M W (option (Member * nat)) :=
  match map with
  | Some cm => ret (members cm name)
  | None => fault
  end.
End Primitives.

(** ** The functions of atom.cpp *)

Section Operations.
Context {W : Type} `{Host W} {CH : ClassMapHeader}.

Definition tuple_new (n : nat) : M W bool :=
  fun h => ([], h, Ret (PyTuple_New n h)).

(** [PyObject_Call( f, args, 0 )], logged with its answer. *)
Definition call (f : PyObj) (args : list PyObj) : M W PyObj := fun h =>
  match PyObject_Call f args h with
  | (h', r) => ([EvCall f args r], h', r)
  end.

(** One handler block of [do_validate] and [do_default].  [result] is the
    object the [PyObjectPtr] holds on entry.  pythonhelpers.h is not among
    the sources: the handle gives up its referent when it is assigned to
    and when it leaves scope, [newref] is [Py_INCREF].  The tuple owns one
    reference to each item from [PyTuple_SET_ITEM] until the end of the
    block. *)
Definition call_handler (f : PyObj) (args : list PyObj) (result : PyObj)
  : M W PyObj :=
  ok <- tuple_new (length args);;
  if ok : bool then
    for_each Py_INCREF args;;;
    r <- attempt (call f args);;
    Py_DECREF result;;;
    for_each Py_DECREF args;;;
    lift r
  else
    Py_DECREF result;;;
    raise MemoryError.

(** A validation stage: the handler, when there is one, is called with
    the current [result] as its last argument and replaces it. *)
Definition stage (handler : option PyObj) (pre : list PyObj)
    (result : PyObj) : M W PyObj :=
  match handler with
  | Some f => call_handler f (pre ++ [result]) result
  | None => ret result
  end.

Definition do_validate (member : Member) (atom name old val : PyObj)
  : M W PyObj :=
  Py_INCREF val;;;
  let pre := [member_ob member; atom; name; old] in
  result <- stage (validate_handler member) pre val;;
  stage (post_validate_handler member) pre result.

Definition do_default (member : Member) (atom name : PyObj) : M W PyObj :=
  Py_INCREF Py_None;;;
  result <- match default_handler member with
            | Some f => call_handler f [member_ob member; atom; name] Py_None
            | None => ret Py_None
            end;;
  r <- attempt (do_validate member atom name NullObject result);;
  Py_DECREF result;;;
  lift r.

(** The branch of [Atom_getattro] taken for a member whose slot is NULL. *)
Definition fill_slot (member : Member) (index : nat) (self name : PyObj)
  : M W PyObj :=
  value <- do_default member self name;;
  write_slot index (Some value);;;
  Py_INCREF value;;;
  ret value.

Definition Atom_getattro (self name : PyObj) : M W PyObj :=
  map <- read_class_map;;
  found <- ClassMap_LookupMember map name;;
  match found with
  | Some (member, index) =>
      value <- read_slot index;;
      match value with
      | Some v => Py_INCREF v;;; ret v
      | None => fill_slot member index self name
      end
  | None => fun h =>
      match PyObject_GenericGetAttr self name h with
      | (h', r) => ([], h', r)
      end
  end.

(** [value] is [None] for a deletion (a NULL value). *)
Definition Atom_setattro (self name : PyObj) (value : option PyObj)
  : M W Z :=
  map <- read_class_map;;
  found <- ClassMap_LookupMember map name;;
  match found with
  | Some (member, index) =>
      Py_XINCREF value;;;
      write_slot index value;;;
      ret 0%Z
  | None => fun h =>
      match PyObject_GenericSetAttr self name value h with
      | (h', r) => ([], h', r)
      end
  end.

(** [PyObject_SetAttr] on an [Atom] goes through [tp_setattro]. *)
Definition PyObject_SetAttr (self name value : PyObj) : M W Z :=
  Atom_setattro self name (Some value).

(** The [PyDict_Next] loop over the keyword arguments, in the order the
    dictionary yields them. *)
Fixpoint init_kwargs (self : PyObj) (kwargs : list (PyObj * PyObj))
  : M W Z :=
  match kwargs with
  | [] => ret 0%Z
  | (key, value) :: rest =>
      r <- PyObject_SetAttr self key value;;
      if decide (r < 0)%Z then ret (-1)%Z else init_kwargs self rest
  end.

Definition Atom_init (self : PyObj) (args : list PyObj)
    (kwargs : option (list (PyObj * PyObj))) : M W Z :=
  if decide (0 < length args)
  then raise (TypeError "__init__() takes no positional arguments")
  else match kwargs with
       | Some kw => init_kwargs self kw
       | None => ret 0%Z
       end.

(** [Py_CLEAR]: empty the place first, release the old referent second. *)
Definition Py_CLEAR_slot (i : nat) : M W unit :=
  op <- read_slot i;;
  match op with
  | Some tmp => write_slot i None;;; Py_DECREF tmp
  | None => ret tt
  end.

Definition Py_CLEAR_class_map : M W unit :=
  map <- read_class_map;;
  match map with
  | Some cm => write_class_map None;;; Py_DECREF (class_map_ob cm)
  | None => ret tt
  end.

Definition Atom_clear : M W unit :=
  map <- read_class_map;;
  count <- ClassMap_MemberCount map;;
  for_each Py_CLEAR_slot (seq 0 count);;;
  Py_CLEAR_class_map.

(** [Py_VISIT]: NULL is skipped; the answer of [visit] is handed back so
    that the caller can return it when it is not zero. *)
Definition Py_VISIT (visit : visitproc W) (op : option PyObj) : M W Z :=
  match op with
  | Some o => fun h =>
      match visit o (host h) with
      | (w, vret) => ([EvVisit o vret], set_host w h, Ret vret)
      end
  | None => ret 0%Z
  end.

Fixpoint traverse_slots (visit : visitproc W) (idx : list nat) : M W Z :=
  match idx with
  | [] => ret 0%Z
  | i :: idx' =>
      op <- read_slot i;;
      vret <- Py_VISIT visit op;;
      if decide (vret = 0%Z) then traverse_slots visit idx' else ret vret
  end.

Definition Atom_traverse (visit : visitproc W) : M W Z :=
  map <- read_class_map;;
  count <- ClassMap_MemberCount map;;
  vret <- traverse_slots visit (seq 0 count);;
  if decide (vret = 0%Z) then
    map' <- read_class_map;;
    Py_VISIT visit (class_map_ob <$> map')
  else ret vret.
End Operations.

(** ** Observations on logs and heaps *)

Definition is_call (e : event) : bool :=
  match e with EvCall _ _ _ => true | _ => false end.

(** The handler calls of a log, in order. *)
Definition calls_of (l : list event) : list event := List.filter is_call l.

(** The call made to an optional handler that answers [out]. *)
Definition handler_call (handler : option PyObj) (args : list PyObj)
    (out : PyObj) : list event :=
  match handler with
  | Some f => [EvCall f args (Ret out)]
  | None => []
  end.

(** The call a stage makes when it has a handler and the handler answers
    [out] to the candidate [cand]. *)
Definition stage_call (handler : option PyObj) (pre : list PyObj)
    (cand out : PyObj) : list event :=
  handler_call handler (pre ++ [cand]) out.

(** The present slot values, in index order. *)
Definition present (s : list (option PyObj)) : list PyObj :=
  omap id s.

(** The objects a traversal has to report: the present slot values, then
    the class map. *)
Definition referents {W} (h : Heap W) : list PyObj :=
  present (slots h) ++ option_list (class_map_ob <$> class_map h).

(** Two heaps hold the same instance layout: the same class map and a slot
    array of the same length. *)
Definition same_shape {W} (h h' : Heap W) : Prop :=
  class_map h' = class_map h /\ length (slots h') = length (slots h).

(** The same layout, and slot [i] holds in [h'] what it held in [h]. *)
Definition same_slot {W} (i : nat) (h h' : Heap W) : Prop :=
  same_shape h h' /\ slots h' !! i = slots h !! i.

(** The instance fields are identical in the two heaps. *)
Definition same_atom {W} (h h' : Heap W) : Prop :=
  class_map h' = class_map h /\ slots h' = slots h.

(** The state a run ends in, its log and its result. *)
Definition final {W A} (x : list event * Heap W * outcome A) : Heap W :=
  snd (fst x).
Definition logged {W A} (x : list event * Heap W * outcome A) : list event :=
  fst (fst x).
Definition result {W A} (x : list event * Heap W * outcome A) : outcome A :=
  snd x.

(** [m] relates every start state to its end state by [P]. *)
Definition keeps {W A} (P : Heap W -> Heap W -> Prop) (m : M W A) : Prop :=
  forall h, P h (final (m h)).

(** What the spec says of initialisation from a mapping: the pairs are
    applied one after the other through the write path, each on the state
    the previous one left.  [applied self kw h l h'] holds when every pair
    of [kw] succeeded, with log [l] and end state [h']. *)
Inductive applied {W} `{Host W} (self : PyObj)
  : list (PyObj * PyObj) -> Heap W -> list event -> Heap W -> Prop :=
| applied_nil h : applied self [] h [] h
| applied_cons key value rest h l1 h1 r l2 h2 :
    Atom_setattro self key (Some value) h = (l1, h1, Ret r) ->
    (0 <= r)%Z ->
    applied self rest h1 l2 h2 ->
    applied self ((key, value) :: rest) h (l1 ++ l2) h2.

(** What the spec says of traversal: the objects are reported to the
    visitor one after the other.  Under the collector's protocol a visitor
    that answers something other than 0 ends the traversal with that
    answer. *)
Fixpoint visit_list {W} (visit : visitproc W) (objs : list PyObj) (w : W)
  : list event * W * Z :=
  match objs with
  | [] => ([], w, 0%Z)
  | o :: objs' =>
      match visit o w with
      | (w1, vret) =>
          if decide (vret = 0%Z)
          then match visit_list visit objs' w1 with
               | (l, w2, r) => (EvVisit o vret :: l, w2, r)
               end
          else ([EvVisit o vret], w1, vret)
      end
  end.

(** The reference counts after one reference to each of [objs] has been
    given up, first to last. *)
Definition release_all (objs : list PyObj) (rc : PyObj -> Z) : PyObj -> Z :=
  fold_left (fun rc o => <[o := (rc o - 1)%Z]> rc) objs rc.

(** ** A small interpreter to run the functions on *)

Module Demo.

(** Callable 100 answers object 7; 101 answers its last argument plus 10;
    102 answers its last argument plus 100; 104 raises exception object 56
    when it is the first call ever made and answers object 9 afterwards;
    every other callable raises exception object 55.  The interpreter
    state counts the calls made. *)
Definition answer (calls : nat) (f : PyObj) (args : list PyObj)
  : outcome PyObj :=
  match f with
  | 100 => Ret 7
  | 101 => Ret (List.last args 0 + 10)
  | 102 => Ret (List.last args 0 + 100)
  | 104 => match calls with 0 => Raise (PyErr 56) | _ => Ret 9 end
  | _ => Raise (PyErr 55)
  end.

(** The generic store knows no attribute; it refuses to set name 900. *)
Definition generic_set (name : PyObj) : outcome Z :=
  match name with
  | 900 => Raise (PyErr 67)
  | _ => Ret 0%Z
  end.

(** [Py_None] is object 1 and [NullObject] is object 2. *)
#[export] Instance interp : Host nat := {|
  Py_None := 1;
  NullObject := 2;
  PyTuple_New := fun _ _ => true;
  PyObject_Call := fun f args h =>
    (set_host (S (host h)) h, answer (host h) f args);
  PyObject_GenericGetAttr := fun _ _ h => (h, Raise (PyErr 66));
  PyObject_GenericSetAttr := fun _ name _ h => (h, generic_set name)
|}.

Definition full : Member := mkMember 20 (Some 100) (Some 101) (Some 102) None.
Definition bare : Member := mkMember 21 None None None None.
Definition broken : Member := mkMember 22 (Some 103) None None None.
Definition checked : Member := mkMember 23 None (Some 101) None None.
Definition flaky : Member := mkMember 24 (Some 104) None None None.

(** Names 10 to 14 are members with slots 0 to 4. *)
Definition table (name : PyObj) : option (Member * nat) :=
  match name with
  | 10 => Some (full, 0)
  | 11 => Some (bare, 1)
  | 12 => Some (broken, 2)
  | 13 => Some (checked, 3)
  | 14 => Some (flaky, 4)
  | _ => None
  end.

Definition map : ClassMap := mkClassMap 30 5 table.

(** A fresh instance (object 40): every slot NULL. *)
Definition fresh : Heap nat :=
  mkHeap [None; None; None; None; None] (Some map) (fun _ => 1%Z) 0.

(** The same instance with objects 8 and 9 in slots 1 and 3. *)
Definition filled : Heap nat :=
  mkHeap [None; Some 8; None; Some 9; None] (Some map) (fun _ => 1%Z) 0.

(** The collector's usual visitor: count the visit, answer 0. *)
Definition count_visit : visitproc nat := fun _ w => (S w, 0%Z).

(** A visitor that gives up at object 8. *)
Definition stop_at_8 : visitproc nat :=
  fun o w => (S w, if decide (o = 8) then 1%Z else 0%Z).

(** Here [ClassMap_MemberCount] answers a NULL class map with 0. *)
#[export] Instance header : ClassMapHeader := {|
  MemberCount_of_NULL := Some 0
|}.

(** A [ClassMap_MemberCount] that reads through the pointer it is given,
    NULL or not. *)
Definition unchecked : ClassMapHeader := {| MemberCount_of_NULL := None |}.

End Demo.

(** ** Construction, destruction and the post-setattr hook *)

(** What the type's dictionary holds under ["_[class map]"]: a class map,
    or an object of some other type. *)
Inductive dict_entry : Type :=
| IsClassMap (cm : ClassMap)
| NotClassMap (o : PyObj).

(** The allocator and the collector's bookkeeping.  Memory itself is not
    part of the heap: each operation acts on the interpreter state, and
    the two allocating ones tell whether they succeeded.  [sizeof_ptr] is
    [sizeof( PyObject* )]; [size_t] has as many bytes as a pointer. *)
Class Runtime (W : Type) : Type := mkRuntime {
  sizeof_ptr : Z;
  PyType_GenericNew : PyObj -> W -> W * outcome PyObj;
  PyObject_Malloc : Z -> W -> W * bool;
  PyObject_GC_UnTrack : PyObj -> W -> W;
  PyObject_Free : W -> W;
  tp_free : PyObj -> W -> W
}.

Section Lifetime.
Context {W : Type} {HH : Host W} {CH : ClassMapHeader} {RT : Runtime W}.

Definition host_step (f : W -> W) : M W unit :=
  fun h => ([], set_host (f (host h)) h, Ret tt).

Definition write_slots (s : list (option PyObj)) : M W unit :=
  fun h => ([], set_slots s h, Ret tt).

(** [PyDict_GetItem( type->tp_dict, class_map_str )] answers [py_map];
    the class map is handed back with a new reference. *)
Definition lookup_class_map (py_map : option dict_entry) : M W ClassMap :=
  match py_map with
  | Some (IsClassMap cm) => Py_INCREF (class_map_ob cm);;; ret cm
  | Some (NotClassMap _) => raise (SystemError "class map has invalid type")
  | None => raise (SystemError "atom type has no class map")
  end.

(** [PyType_GenericNew]: a new object with one reference and all fields
    zero, so both [slots] and [class_map] start NULL. *)
Definition generic_new (type : PyObj) : M W PyObj := fun h =>
  match PyType_GenericNew type (host h) with
  | (w, Ret self) =>
      ([], mkHeap [] None (<[self := 1%Z]> (ob_refcnt h)) w, Ret self)
  | (w, Raise e) => ([], set_host w h, Raise e)
  | (w, Fault) => ([], set_host w h, Fault)
  end.

Definition malloc (size : Z) : M W bool := fun h =>
  match PyObject_Malloc size (host h) with
  | (w, ok) => ([], set_host w h, Ret ok)
  end.

(** [sizeof( PyObject* ) * count] in [size_t] arithmetic. *)
Definition slot_memsize (count : nat) : Z :=
  ((sizeof_ptr * Z.of_nat count) mod 2 ^ (8 * sizeof_ptr))%Z.

(** The number of whole slots in a buffer of [memsize] bytes. *)
Definition slots_in (memsize : Z) : nat := Z.to_nat (memsize / sizeof_ptr).

Definition Atom_dealloc (self : PyObj) : M W unit :=
  host_step (PyObject_GC_UnTrack self);;;
  Atom_clear;;;
  host_step PyObject_Free;;;
  write_slots [];;;
  host_step (tp_free self).

(** The [PyObjectPtr] holding the new instance leaves scope: the instance
    loses a reference and is destroyed when that was the last one. *)
Definition Py_DECREF_instance (self : PyObj) : M W unit :=
  Py_DECREF self;;;
  fun h =>
    if decide (ob_refcnt h self = 0%Z) then Atom_dealloc self h
    else ret tt h.

(** [args] and [kwargs] are only handed on to [PyType_GenericNew], which
    does not look at them. *)
Definition Atom_new (type : PyObj) (py_map : option dict_entry) : M W PyObj :=
  map <- lookup_class_map py_map;;
  made <- attempt (generic_new type);;
  match made with
  | Ret self =>
      count <- ClassMap_MemberCount (Some map);;
      if decide (0 < count) then
        let memsize := slot_memsize count in
        ok <- malloc memsize;;
        if ok : bool then
          write_slots (replicate (slots_in memsize) None);;;
          write_class_map (Some map);;;
          ret self
        else
          Py_DECREF_instance self;;;
          Py_DECREF (class_map_ob map);;;
          raise MemoryError
      else
        write_class_map (Some map);;;
        ret self
  | Raise e => Py_DECREF (class_map_ob map);;; raise e
  | Fault => fault
  end.

(** The int [do_post_setattr] returns, with the error indicator it leaves
    behind.  The answer of the handler is released at once. *)
Definition do_post_setattr (member : Member) (atom name old val : PyObj)
  : M W (Z * option exn) :=
  match post_setattr_handler member with
  | Some f =>
      let args := [member_ob member; atom; name; old; val] in
      ok <- tuple_new (length args);;
      if ok : bool then
        for_each Py_INCREF args;;;
        answer <- attempt (call f args);;
        match answer with
        | Ret res =>
            Py_DECREF res;;;
            for_each Py_DECREF args;;;
            ret (0%Z, None)
        | Raise e =>
            for_each Py_DECREF args;;;
            ret ((-1)%Z, Some e)
        | Fault => fault
        end
      else ret (0%Z, Some MemoryError)
  | None => ret (0%Z, None)
  end.

End Lifetime.

(** ** References held, and the layout invariant *)

(** What one event does to the number of references to [o] the module
    holds: [Py_INCREF] takes one, [Py_DECREF] gives one up, and the answer
    of a call is a new reference handed over by the callee. *)
Definition ref_delta (o : PyObj) (e : event) : Z :=
  match e with
  | EvIncref p => if decide (p = o) then 1%Z else 0%Z
  | EvDecref p => if decide (p = o) then (-1)%Z else 0%Z
  | EvCall _ _ (Ret p) => if decide (p = o) then 1%Z else 0%Z
  | _ => 0%Z
  end.

(** The references to [o] held at the end of [l] beyond those held at its
    start. *)
Definition held (o : PyObj) (l : list event) : Z :=
  fold_right (fun e z => (ref_delta o e + z)%Z) 0%Z l.

Definition indicator (b : bool) : Z := if b then 1%Z else 0%Z.

(** [r] is the value [o]. *)
Definition returns (o : PyObj) (r : outcome PyObj) : bool :=
  match r with
  | Ret v => bool_decide (v = o)
  | _ => false
  end.

(** The failing end of a handler block: the call that raised [e], or no
    call at all when the argument tuple could not be allocated. *)
Definition failed_call (handler : option PyObj) (args : list PyObj)
    (e : exn) (calls : list event) : Prop :=
  exists f, handler = Some f
    /\ (calls = [EvCall f args (Raise e)]
        \/ (calls = [] /\ e = MemoryError)).

(** [ClassMap_MemberCount] answers a NULL class map with a count that
    stays within a slot array of [len] entries. *)
Definition null_count_within {CH : ClassMapHeader} (len : nat) : Prop :=
  exists n, MemberCount_of_NULL = Some n /\ n <= len.

(** The instance is laid out as [Atom_new] leaves it: a class map, and as
    many slots as the class map counts members. *)
Definition atom_ok {W} (h : Heap W) : Prop :=
  exists cm, class_map h = Some cm /\ length (slots h) = member_count cm.

(** The slot index of a member name, when the name is a member. *)
Definition index_of (cm : ClassMap) (name : PyObj) : option nat :=
  snd <$> members cm name.

(** Allocators for the small interpreter: pointers of 8 bytes, new
    objects at address 40. *)
Module DemoRuntime.

(** Every allocation succeeds. *)
Definition plenty : Runtime nat := {|
  sizeof_ptr := 8;
  PyType_GenericNew := fun _ w => (w, Ret 40);
  PyObject_Malloc := fun _ w => (w, true);
  PyObject_GC_UnTrack := fun _ w => w;
  PyObject_Free := fun w => w;
  tp_free := fun _ w => w
|}.

(** Objects can be allocated, slot arrays cannot. *)
Definition no_slots : Runtime nat := {|
  sizeof_ptr := 8;
  PyType_GenericNew := fun _ w => (w, Ret 40);
  PyObject_Malloc := fun _ w => (w, false);
  PyObject_GC_UnTrack := fun _ w => w;
  PyObject_Free := fun w => w;
  tp_free := fun _ w => w
|}.

(** Nothing can be allocated. *)
Definition no_memory : Runtime nat := {|
  sizeof_ptr := 8;
  PyType_GenericNew := fun _ w => (w, Raise MemoryError);
  PyObject_Malloc := fun _ w => (w, false);
  PyObject_GC_UnTrack := fun _ w => w;
  PyObject_Free := fun w => w;
  tp_free := fun _ w => w
|}.

(** The interpreter state before the instance exists: no fields, every
    object counted once. *)
Definition blank : Heap nat := mkHeap [] None (fun _ => 1%Z) 0.

(** A member with a post-setattr handler that answers (callable 100) and
    one whose handler raises (callable 103). *)
Definition observed : Member := mkMember 25 None None None (Some 100).
Definition vetoed : Member := mkMember 26 None None None (Some 103).

(** A member whose default handler answers (callable 100), whose validate
    handler raises (callable 103), and which has a post-validate handler
    (callable 102). *)
Definition refusing : Member :=
  mkMember 27 (Some 100) (Some 103) (Some 102) None.

(** A visitor that answers 2 at object 9 and 0 elsewhere. *)
Definition refuse_9 : visitproc nat :=
  fun o w => (S w, if decide (o = 9) then 2%Z else 0%Z).

(** An interpreter that cannot allocate tuples. *)
Definition no_tuples : Host nat := {|
  Py_None := 1;
  NullObject := 2;
  PyTuple_New := fun _ _ => false;
  PyObject_Call := fun f args h =>
    (set_host (S (host h)) h, Demo.answer (host h) f args);
  PyObject_GenericGetAttr := fun _ _ h => (h, Raise (PyErr 66));
  PyObject_GenericSetAttr := fun _ name _ h => (h, Demo.generic_set name)
|}.

End DemoRuntime.

(** ** Running the monad *)

Section Monad.
Context {W : Type}.

Lemma bind_ret_inv {A B} (m : M W A) (k : A -> M W B) h l h' b :
  bind m k h = (l, h', Ret b) ->
  exists l1 h1 a l2,
    m h = (l1, h1, Ret a) /\ k a h1 = (l2, h', Ret b) /\ l = l1 ++ l2.
Proof.
  unfold bind. destruct (m h) as [[l1 h1] [a|e|]]; try discriminate.
  destruct (k a h1) as [[l2 h2] r] eqn:Hk. intros [= <- <- ->].
  exists l1, h1, a, l2. auto.
Qed.

Lemma bind_inv {A B} (m : M W A) (k : A -> M W B) h l h' r :
  bind m k h = (l, h', r) ->
  (exists l1 h1 a l2,
      m h = (l1, h1, Ret a) /\ k a h1 = (l2, h', r) /\ l = l1 ++ l2)
  \/ (exists e, m h = (l, h', Raise e) /\ r = Raise e)
  \/ (m h = (l, h', Fault) /\ r = Fault).
Proof.
  unfold bind. destruct (m h) as [[l1 h1] [a|e|]].
  - destruct (k a h1) as [[l2 h2] r2] eqn:Hk. intros [= <- <- <-].
    left. exists l1, h1, a, l2. auto.
  - intros [= <- <- <-]. right. left. eauto.
  - intros [= <- <- <-]. right. right. auto.
Qed.

Lemma bind_ret_run {A B} (m : M W A) (k : A -> M W B) h l1 h1 a :
  m h = (l1, h1, Ret a) ->
  bind m k h = (l1 ++ logged (k a h1), final (k a h1), result (k a h1)).
Proof.
  intros Hm. unfold bind. rewrite Hm.
  destruct (k a h1) as [[l2 h2] r]. reflexivity.
Qed.

Lemma bind_raise_run {A B} (m : M W A) (k : A -> M W B) h l1 h1 e :
  m h = (l1, h1, Raise e) -> bind m k h = (l1, h1, Raise e).
Proof. intros Hm. unfold bind. rewrite Hm. reflexivity. Qed.

Lemma run_eta {A} (x : list event * Heap W * outcome A) :
  x = (logged x, final x, result x).
Proof. destruct x as [[l h] r]. reflexivity. Qed.

(** Frame conditions compose along [bind]. *)
Lemma keeps_bind {A B} (P : Heap W -> Heap W -> Prop) `{!PreOrder P}
    (m : M W A) (k : A -> M W B) :
  keeps P m -> (forall a, keeps P (k a)) -> keeps P (bind m k).
Proof.
  intros Hm Hk h. specialize (Hm h). unfold bind, final in *.
  destruct (m h) as [[l1 h1] [a|e|]]; simpl in *; auto.
  specialize (Hk a h1). unfold final in Hk.
  destruct (k a h1) as [[l2 h2] r]. simpl in *. etrans; eauto.
Qed.

Lemma keeps_ret {A} P `{!PreOrder P} (a : A) : keeps (W:=W) P (ret a).
Proof. intros h. reflexivity. Qed.

Lemma keeps_raise {A} P `{!PreOrder P} e : keeps (W:=W) (A:=A) P (raise e).
Proof. intros h. reflexivity. Qed.

Lemma keeps_lift {A} P `{!PreOrder P} (r : outcome A) : keeps (W:=W) P (lift r).
Proof. intros h. reflexivity. Qed.

Lemma keeps_attempt {A} P (m : M W A) : keeps P m -> keeps P (attempt m).
Proof.
  intros Hm h. specialize (Hm h). unfold attempt, final in *.
  destruct (m h) as [[l1 h1] [a|e|]]; auto.
Qed.

Lemma keeps_for_each {A} P `{!PreOrder P} (body : A -> M W unit) xs :
  (forall x, keeps P (body x)) -> keeps P (for_each body xs).
Proof.
  intros Hb. induction xs as [|x xs IH]; simpl.
  - apply keeps_ret; auto.
  - apply keeps_bind; auto.
Qed.

#[global] Instance same_shape_preorder : PreOrder (@same_shape W).
Proof.
  split.
  - intros h. split; reflexivity.
  - intros a b c [? ?] [? ?]. split; congruence.
Qed.

#[global] Instance same_slot_preorder i : PreOrder (@same_slot W i).
Proof.
  split.
  - intros h. split; reflexivity.
  - intros a b c [Hab ?] [Hbc ?]. split; [by etrans | congruence].
Qed.

Lemma for_each_incref_log (args : list PyObj) (h : Heap W) :
  logged (for_each Py_INCREF args h) = map EvIncref args
  /\ result (for_each Py_INCREF args h) = Ret tt.
Proof.
  revert h. induction args as [|a args IH]; intros h; simpl; [done|].
  unfold bind; simpl. specialize (IH (incref a h)).
  destruct (for_each Py_INCREF args (incref a h)) as [[l2 h2] r].
  unfold logged, result in *. simpl in *. destruct IH as [-> ->]. done.
Qed.

Lemma for_each_decref_log (args : list PyObj) (h : Heap W) :
  logged (for_each Py_DECREF args h) = map EvDecref args
  /\ result (for_each Py_DECREF args h) = Ret tt.
Proof.
  revert h. induction args as [|a args IH]; intros h; simpl; [done|].
  unfold bind; simpl. specialize (IH (decref a h)).
  destruct (for_each Py_DECREF args (decref a h)) as [[l2 h2] r].
  unfold logged, result in *. simpl in *. destruct IH as [-> ->]. done.
Qed.

Lemma calls_of_app l1 l2 : calls_of (l1 ++ l2) = calls_of l1 ++ calls_of l2.
Proof. apply List.filter_app. Qed.

Lemma calls_of_increfs args : calls_of (map EvIncref args) = [].
Proof. induction args; simpl; auto. Qed.

Lemma calls_of_decrefs args : calls_of (map EvDecref args) = [].
Proof. induction args; simpl; auto. Qed.

End Monad.

(** ** Frame conditions of default production *)

Section Frame.
Context {W : Type} `{Host W}.
Variable P : Heap W -> Heap W -> Prop.
Context `{!PreOrder P}.
Hypothesis P_refcnt : forall rc (h : Heap W), P h (set_refcnt rc h).
Hypothesis P_call : forall f args h, P h (fst (PyObject_Call f args h)).

Lemma keeps_Py_INCREF o : keeps P (Py_INCREF o).
Proof. intros h. apply P_refcnt. Qed.

Lemma keeps_Py_DECREF o : keeps P (Py_DECREF o).
Proof. intros h. apply P_refcnt. Qed.

Lemma keeps_call f args : keeps P (call f args).
Proof.
  intros h. unfold call, final. specialize (P_call f args h).
  destruct (PyObject_Call f args h) as [h' r]. exact P_call.
Qed.

Lemma keeps_call_handler f args res : keeps P (call_handler f args res).
Proof.
  unfold call_handler. apply keeps_bind; [done | intros h; reflexivity |].
  intros [|].
  - apply keeps_bind; [done | |].
    { apply keeps_for_each; [done | apply keeps_Py_INCREF]. }
    intros _. apply keeps_bind; [done | |].
    { apply keeps_attempt, keeps_call. }
    intros r. apply keeps_bind; [done | apply keeps_Py_DECREF |].
    intros _. apply keeps_bind; [done | |].
    { apply keeps_for_each; [done | apply keeps_Py_DECREF]. }
    intros _. by apply keeps_lift.
  - apply keeps_bind; [done | apply keeps_Py_DECREF |].
    intros _. by apply keeps_raise.
Qed.

Lemma keeps_stage handler pre res : keeps P (stage handler pre res).
Proof.
  destruct handler as [f|]; simpl.
  - apply keeps_call_handler.
  - by apply keeps_ret.
Qed.

Lemma keeps_do_validate m a n old val : keeps P (do_validate m a n old val).
Proof.
  unfold do_validate. apply keeps_bind; [done | apply keeps_Py_INCREF |].
  intros _. apply keeps_bind; [done | apply keeps_stage |].
  intros r. apply keeps_stage.
Qed.

Lemma keeps_do_default m a n : keeps P (do_default m a n).
Proof.
  unfold do_default. apply keeps_bind; [done | apply keeps_Py_INCREF |].
  intros _. apply keeps_bind; [done | |].
  { destruct (default_handler m).
    - apply keeps_call_handler.
    - by apply keeps_ret. }
  intros c. apply keeps_bind; [done | |].
  { apply keeps_attempt, keeps_do_validate. }
  intros r. apply keeps_bind; [done | apply keeps_Py_DECREF |].
  intros _. by apply keeps_lift.
Qed.

End Frame.

(** ** The calls of default production *)

Section Calls.
Context {W : Type} `{Host W}.

Lemma for_each_incref_run (args : list PyObj) (h : Heap W) :
  for_each Py_INCREF args h
  = (map EvIncref args, final (for_each Py_INCREF args h), Ret tt).
Proof.
  rewrite (run_eta (for_each Py_INCREF args h)) at 1.
  destruct (for_each_incref_log args h) as [-> ->]. reflexivity.
Qed.

Lemma for_each_decref_run (args : list PyObj) (h : Heap W) :
  for_each Py_DECREF args h
  = (map EvDecref args, final (for_each Py_DECREF args h), Ret tt).
Proof.
  rewrite (run_eta (for_each Py_DECREF args h)) at 1.
  destruct (for_each_decref_log args h) as [-> ->]. reflexivity.
Qed.

(** Leaving a handler block: the handle lets go of its old referent, the
    tuple of its items, and the answer of the call is handed on. *)
Lemma leave_block_run (res : PyObj) args (x : outcome PyObj) (h : Heap W) :
  (Py_DECREF res;;; for_each Py_DECREF args;;; lift x) h
  = (EvDecref res :: map EvDecref args,
     final (for_each Py_DECREF args (decref res h)), x).
Proof.
  rewrite (bind_ret_run _ _ h [EvDecref res] (decref res h) tt) by reflexivity.
  rewrite (bind_ret_run _ _ _ _ _ tt (for_each_decref_run args _)).
  unfold lift, logged, final, result. simpl. by rewrite app_nil_r.
Qed.

Lemma call_handler_inv f args res (h : Heap W) l h' r :
  call_handler f args res h = (l, h', r) ->
  calls_of l = [EvCall f args r]
  \/ (calls_of l = [] /\ r = Raise MemoryError).
Proof.
  unfold call_handler, tuple_new. unfold bind at 1.
  destruct (PyTuple_New (length args) h).
  - unfold bind at 1. rewrite for_each_incref_run.
    set (h1 := final (for_each Py_INCREF args h)).
    unfold bind at 1. unfold attempt, call.
    destruct (PyObject_Call f args h1) as [h2 r2].
    destruct r2 as [v|e|]; rewrite ?leave_block_run;
      intros [= <- <- <-]; left;
      rewrite !calls_of_app, calls_of_increfs; simpl;
      by rewrite ?calls_of_decrefs.
  - unfold bind, Py_DECREF, raise. simpl. intros [= <- <- <-]. right. auto.
Qed.

Lemma call_handler_ret f args res (h : Heap W) l h' v :
  call_handler f args res h = (l, h', Ret v) ->
  calls_of l = [EvCall f args (Ret v)].
Proof.
  intros Hrun. apply call_handler_inv in Hrun as [?|[_ ?]]; [done | discriminate].
Qed.

Lemma stage_ret handler pre res (h : Heap W) l h' v :
  stage handler pre res h = (l, h', Ret v) ->
  calls_of l = stage_call handler pre res v /\ (handler = None -> v = res).
Proof.
  destruct handler as [f|]; simpl.
  - intros Hrun. split; [| discriminate].
    apply call_handler_ret in Hrun. exact Hrun.
  - intros [= <- <- <-]. auto.
Qed.

Lemma do_validate_ret m a n old val (h : Heap W) l h' v :
  do_validate m a n old val h = (l, h', Ret v) ->
  exists v1,
    calls_of l =
      stage_call (validate_handler m) [member_ob m; a; n; old] val v1
      ++ stage_call (post_validate_handler m) [member_ob m; a; n; old] v1 v
    /\ (validate_handler m = None -> v1 = val)
    /\ (post_validate_handler m = None -> v = v1).
Proof.
  unfold do_validate. intros Hrun.
  apply bind_ret_inv in Hrun as (l0 & h0 & [] & l' & Hinc & Hrun & ->).
  apply bind_ret_inv in Hrun as (l1 & h1 & v1 & l2 & Hs1 & Hs2 & ->).
  apply stage_ret in Hs1 as [Hc1 Hv1]. apply stage_ret in Hs2 as [Hc2 Hv2].
  exists v1. rewrite !calls_of_app, Hc1, Hc2.
  injection Hinc as <- _. auto.
Qed.

Lemma attempt_inv {A} (m : M W A) h l h' (r : outcome A) :
  attempt m h = (l, h', Ret r) -> m h = (l, h', r) /\ r <> Fault.
Proof.
  unfold attempt. destruct (m h) as [[l1 h1] [a|e|]]; intros [= <- <- <-]; done.
Qed.

(** A successful default production made, in this order, the call to the
    default handler, the call to the validate handler on the candidate and
    the call to the post-validate handler on the validated value, each when
    the handler exists, and nothing else. *)
Lemma do_default_ret m a n (h : Heap W) l h' v :
  do_default m a n h = (l, h', Ret v) ->
  exists c v1,
    calls_of l =
      handler_call (default_handler m) [member_ob m; a; n] c
      ++ stage_call (validate_handler m) [member_ob m; a; n; NullObject] c v1
      ++ stage_call (post_validate_handler m)
           [member_ob m; a; n; NullObject] v1 v
    /\ (default_handler m = None -> c = Py_None)
    /\ (validate_handler m = None -> v1 = c)
    /\ (post_validate_handler m = None -> v = v1).
Proof.
  unfold do_default. intros Hrun.
  apply bind_ret_inv in Hrun as (l0 & h0 & [] & l' & Hinc & Hrun & ->).
  apply bind_ret_inv in Hrun as (l1 & h1 & c & l2 & Hd & Hrun & ->).
  apply bind_ret_inv in Hrun as (l3 & h3 & r & l4 & Hv & Hrun & ->).
  apply bind_ret_inv in Hrun as (l5 & h5 & [] & l6 & Hdec & Hrun & ->).
  unfold lift in Hrun. injection Hrun as <- <- ->.
  apply attempt_inv in Hv as [Hv _].
  apply do_validate_ret in Hv as (v1 & Hc & Hv1 & Hv2).
  injection Hinc as <- _. injection Hdec as <- _.
  exists c, v1. rewrite !calls_of_app, Hc. simpl.
  assert (calls_of l1 = handler_call (default_handler m) [member_ob m; a; n] c
          /\ (default_handler m = None -> c = Py_None)) as [-> Hnone].
  { destruct (default_handler m) as [f|].
    - split; [| discriminate]. by apply call_handler_ret in Hd.
    - injection Hd as <- _ <-. auto. }
  rewrite !app_nil_r. auto.
Qed.

End Calls.

(** ** Every call of a default production, whatever its outcome *)

Section CallsAnyOutcome.
Context {W : Type} `{Host W}.

Lemma bind_log_in {A B} (m : M W A) (k : A -> M W B) (h : Heap W) ev :
  In ev (logged (bind m k h)) ->
  In ev (logged (m h))
  \/ exists a, result (m h) = Ret a /\ In ev (logged (k a (final (m h)))).
Proof.
  unfold bind, logged, result, final.
  destruct (m h) as [[l1 h1] [a|e|]]; simpl; auto.
  destruct (k a h1) as [[l2 h2] r] eqn:Hk. simpl.
  intros [Hin|Hin]%in_app_or; [auto|].
  right. exists a. rewrite Hk. auto.
Qed.

Lemma attempt_log {A} (m : M W A) (h : Heap W) :
  logged (attempt m h) = logged (m h).
Proof.
  unfold attempt, logged. by destruct (m h) as [[l1 h1] [a|e|]].
Qed.

Lemma call_handler_log_in f args res (h : Heap W) g args' r' :
  In (EvCall g args' r') (logged (call_handler f args res h)) ->
  g = f /\ args' = args.
Proof.
  intros Hin.
  assert (In (EvCall g args' r')
            (calls_of (logged (call_handler f args res h)))) as Hc.
  { apply List.filter_In. auto. }
  destruct (call_handler f args res h) as [[l h'] r] eqn:Hrun.
  apply call_handler_inv in Hrun as [Hl|[Hl _]];
    unfold logged in Hc; simpl in Hc; rewrite Hl in Hc; simpl in Hc.
  - destruct Hc as [[= <- <- <-]|[]]. auto.
  - destruct Hc.
Qed.

Lemma stage_log_in handler pre res (h : Heap W) g args r' :
  In (EvCall g args r') (logged (stage handler pre res h)) ->
  handler = Some g /\ args = pre ++ [res].
Proof.
  destruct handler as [f|]; simpl.
  - intros [-> ->]%call_handler_log_in. auto.
  - intros [].
Qed.

Lemma stage_result_none pre res (h : Heap W) v handler :
  handler = None -> result (stage handler pre res h) = Ret v -> v = res.
Proof. intros ->. simpl. unfold result, ret. simpl. congruence. Qed.

Lemma do_validate_log_in m a n old val (h : Heap W) g args r' :
  In (EvCall g args r') (logged (do_validate m a n old val h)) ->
  exists c, args = [member_ob m; a; n; old; c]
    /\ ((validate_handler m = Some g /\ c = val)
        \/ (post_validate_handler m = Some g
            /\ (validate_handler m = None -> c = val))).
Proof.
  unfold do_validate. intros Hin.
  apply bind_log_in in Hin as [Hin|([] & _ & Hin)].
  { destruct Hin as [[=]|[]]. }
  apply bind_log_in in Hin as [Hin|(v1 & Hv1 & Hin)].
  - apply stage_log_in in Hin as [Hh ->]. exists val. auto.
  - apply stage_log_in in Hin as [Hh ->]. exists v1. split; [done|].
    right. split; [done|]. intros Hnone.
    eapply stage_result_none; eauto.
Qed.

(** Every handler call of a default production is the default handler on
    (member, atom, name), or a validation stage on (member, atom, name,
    [NullObject], candidate); without a default handler the candidate of
    the first stage present is [Py_None]. *)
Lemma do_default_log_in m a n (h : Heap W) g args r' :
  In (EvCall g args r') (logged (do_default m a n h)) ->
  (default_handler m = Some g /\ args = [member_ob m; a; n])
  \/ exists c, args = [member_ob m; a; n; NullObject; c]
       /\ ((validate_handler m = Some g
            /\ (default_handler m = None -> c = Py_None))
           \/ (post_validate_handler m = Some g
               /\ (default_handler m = None ->
                   validate_handler m = None -> c = Py_None))).
Proof.
  unfold do_default. intros Hin.
  apply bind_log_in in Hin as [Hin|([] & _ & Hin)].
  { destruct Hin as [[=]|[]]. }
  apply bind_log_in in Hin as [Hin|(cand & Hcand & Hin)].
  { destruct (default_handler m) as [f|].
    - apply call_handler_log_in in Hin as [-> ->]. auto.
    - destruct Hin. }
  assert (default_handler m = None -> cand = Py_None) as Hnone.
  { intros Hd. rewrite Hd in Hcand. unfold result, ret in Hcand.
    simpl in Hcand. congruence. }
  apply bind_log_in in Hin as [Hin|(r & _ & Hin)].
  - rewrite attempt_log in Hin.
    apply do_validate_log_in in Hin as (c & -> & [[Hv ->]|[Hp Hc]]).
    + right. exists cand. auto.
    + right. exists c. split; [done|]. right. split; [done|].
      intros Hd Hv. rewrite Hc by done. auto.
  - apply bind_log_in in Hin as [Hin|([] & _ & Hin)].
    + destruct Hin as [[=]|[]].
    + destruct Hin.
Qed.

End CallsAnyOutcome.

(** ** The read and write paths *)

Section ReadWrite.
Context {W : Type} `{Host W}.

Lemma do_default_same_shape m a n (h : Heap W) :
  (forall f args h0, same_shape h0 (fst (PyObject_Call f args h0))) ->
  same_shape h (final (do_default m a n h)).
Proof.
  intros Hframe. refine (keeps_do_default same_shape _ Hframe m a n h).
  intros rc h0. split; reflexivity.
Qed.

Lemma do_default_same_slot i m a n (h : Heap W) :
  (forall f args h0, same_slot i h0 (fst (PyObject_Call f args h0))) ->
  same_slot i h (final (do_default m a n h)).
Proof.
  intros Hframe. refine (keeps_do_default (same_slot i) _ Hframe m a n h).
  intros rc h0. split; [split|]; reflexivity.
Qed.

(** A member whose slot holds a value: the value is handed out with a new
    reference and nothing else happens. *)
Lemma getattro_present self name (h : Heap W) cm m i v :
  class_map h = Some cm -> members cm name = Some (m, i) ->
  slots h !! i = Some (Some v) ->
  Atom_getattro self name h = ([EvIncref v], incref v h, Ret v).
Proof.
  intros Hcm Hm Hs. unfold Atom_getattro, bind, read_class_map.
  rewrite Hcm. simpl. rewrite Hm. unfold read_slot. rewrite Hs. reflexivity.
Qed.

(** A member whose slot is NULL: the read is [fill_slot]. *)
Lemma getattro_absent self name (h : Heap W) cm m i :
  class_map h = Some cm -> members cm name = Some (m, i) ->
  slots h !! i = Some None ->
  Atom_getattro self name h = fill_slot m i self name h.
Proof.
  intros Hcm Hm Hs. unfold Atom_getattro, bind at 1, read_class_map.
  rewrite Hcm. unfold bind at 1. simpl. rewrite Hm.
  unfold bind at 1, read_slot. rewrite Hs.
  destruct (fill_slot m i self name h) as [[l2 h2] r]. reflexivity.
Qed.

Lemma fill_slot_ret m i self name (h : Heap W) l1 h1 v :
  do_default m self name h = (l1, h1, Ret v) ->
  i < length (slots h1) ->
  fill_slot m i self name h
  = (l1 ++ [EvIncref v],
     incref v (set_slots (<[i := Some v]> (slots h1)) h1), Ret v).
Proof.
  intros Hd Hi. unfold fill_slot, bind at 1. rewrite Hd.
  unfold bind, write_slot. destruct (decide (i < length (slots h1))); [|done].
  reflexivity.
Qed.

Lemma fill_slot_raise m i self name (h : Heap W) l1 h1 e :
  do_default m self name h = (l1, h1, Raise e) ->
  fill_slot m i self name h = (l1, h1, Raise e).
Proof. intros Hd. unfold fill_slot, bind at 1. rewrite Hd. reflexivity. Qed.

(** The write path on a member: one new reference for the value, the
    slot overwritten, and that is all. *)
Lemma setattro_member self name value (h : Heap W) cm m i :
  class_map h = Some cm -> members cm name = Some (m, i) ->
  i < length (slots h) ->
  Atom_setattro self name value h
  = (match value with Some v => [EvIncref v] | None => [] end,
     set_slots (<[i := value]> (slots h))
       (match value with Some v => incref v h | None => h end),
     Ret 0%Z).
Proof.
  intros Hcm Hm Hi. unfold Atom_setattro, bind at 1, read_class_map.
  rewrite Hcm. unfold bind at 1. simpl. rewrite Hm.
  destruct value as [v|]; unfold bind, write_slot; simpl;
    destruct (decide (i < length (slots h))); done.
Qed.

Lemma read_after_fill self name (h : Heap W) cm m i l1 h1 v :
  (forall f args h0, same_shape h0 (fst (PyObject_Call f args h0))) ->
  class_map h = Some cm -> members cm name = Some (m, i) ->
  slots h !! i = Some None ->
  do_default m self name h = (l1, h1, Ret v) ->
  Atom_getattro self name h
  = (l1 ++ [EvIncref v],
     incref v (set_slots (<[i := Some v]> (slots h1)) h1), Ret v)
  /\ class_map h1 = Some cm /\ i < length (slots h1).
Proof.
  intros Hframe Hcm Hm Hs Hd.
  pose proof (do_default_same_shape m self name h Hframe) as [Hc Hl].
  rewrite Hd in Hc, Hl. unfold final in Hc, Hl. simpl in Hc, Hl.
  assert (i < length (slots h1)) as Hi.
  { rewrite Hl. eapply lookup_lt_Some; eauto. }
  split; [| split; [congruence | done]].
  rewrite (getattro_absent self name h cm m i) by done.
  by apply fill_slot_ret.
Qed.

End ReadWrite.

(** ** Properties of the attribute lifecycle *)

Section Lifecycle.
Context {W : Type} `{Host W}.

(** C1.  A member whose slot is NULL is read twice.  The first read runs
    default production, stores its value in the slot and returns it; the
    second read returns the same value from the slot.  The first read
    calls the default handler once (when there is one), the second read
    calls nothing, and no read of a member whose slot holds a value calls
    anything. *)
Theorem default_cached_on_first_read self name (h : Heap W) cm m i l1 h1 v :
  (forall f args h0, same_shape h0 (fst (PyObject_Call f args h0))) ->
  class_map h = Some cm -> members cm name = Some (m, i) ->
  slots h !! i = Some None ->
  do_default m self name h = (l1, h1, Ret v) ->
  let first := Atom_getattro self name h in
  let second := Atom_getattro self name (final first) in
  logged first = l1 ++ [EvIncref v] /\ result first = Ret v
  /\ slots (final first) !! i = Some (Some v)
  /\ logged second = [EvIncref v] /\ result second = Ret v
  /\ slots (final second) = slots (final first)
  /\ (exists c v1,
        calls_of (logged first) =
          handler_call (default_handler m) [member_ob m; self; name] c
          ++ stage_call (validate_handler m)
               [member_ob m; self; name; NullObject] c v1
          ++ stage_call (post_validate_handler m)
               [member_ob m; self; name; NullObject] v1 v)
  /\ calls_of (logged second) = []
  /\ (forall (h' : Heap W) w,
        class_map h' = Some cm -> slots h' !! i = Some (Some w) ->
        calls_of (logged (Atom_getattro self name h')) = []
        /\ result (Atom_getattro self name h') = Ret w).
Proof.
  intros Hframe Hcm Hm Hs Hd first second.
  destruct (read_after_fill self name h cm m i l1 h1 v)
    as (Hfirst & Hcm1 & Hi); auto.
  assert (slots (final first) !! i = Some (Some v)) as Hslot.
  { unfold first. rewrite Hfirst. unfold final. simpl.
    by apply list_lookup_insert_eq. }
  assert (class_map (final first) = Some cm) as Hcm2.
  { unfold first. rewrite Hfirst. exact Hcm1. }
  assert (second = ([EvIncref v], incref v (final first), Ret v)) as Hsecond.
  { unfold second. by apply (getattro_present self name _ cm m i). }
  repeat split.
  - unfold first. by rewrite Hfirst.
  - unfold first. by rewrite Hfirst.
  - exact Hslot.
  - by rewrite Hsecond.
  - by rewrite Hsecond.
  - by rewrite Hsecond.
  - apply do_default_ret in Hd as (c & v1 & Hc & _).
    exists c, v1. unfold first. rewrite Hfirst. unfold logged. simpl.
    rewrite calls_of_app, Hc. simpl. by rewrite app_nil_r.
  - by rewrite Hsecond.
  - rewrite (getattro_present self name h' cm m i w) by done. reflexivity.
  - rewrite (getattro_present self name h' cm m i w) by done. reflexivity.
Qed.

(** C2.  Writing a value to a member and reading the member back returns
    that very value; neither the write nor the read calls a handler, and
    the write only takes a reference to the value and stores it. *)
Theorem write_then_read self name v (h : Heap W) cm m i :
  class_map h = Some cm -> members cm name = Some (m, i) ->
  i < length (slots h) ->
  let written := Atom_setattro self name (Some v) h in
  let read := Atom_getattro self name (final written) in
  written
  = ([EvIncref v], set_slots (<[i := Some v]> (slots h)) (incref v h),
     Ret 0%Z)
  /\ calls_of (logged written) = []
  /\ result read = Ret v
  /\ calls_of (logged read) = []
  /\ slots (final read) !! i = Some (Some v).
Proof.
  intros Hcm Hm Hi written read.
  assert (written
          = ([EvIncref v], set_slots (<[i := Some v]> (slots h)) (incref v h),
             Ret 0%Z)) as Hw.
  { unfold written. by rewrite (setattro_member self name (Some v) h cm m i). }
  assert (read = ([EvIncref v], incref v (final written), Ret v)) as Hr.
  { unfold read. apply (getattro_present self name _ cm m i); auto.
    - rewrite Hw. exact Hcm.
    - rewrite Hw. unfold final. simpl. by apply list_lookup_insert_eq. }
  repeat split; try by rewrite ?Hw, ?Hr.
  rewrite Hr, Hw. unfold final. simpl. by apply list_lookup_insert_eq.
Qed.

(** C3.  A successful default production calls the validate handler on the
    candidate and then the post-validate handler on what validate answered;
    the value returned and stored in the slot is what post-validate
    answered.  A stage without a handler makes no call and hands its input
    on unchanged. *)
Theorem default_validate_then_post_validate
    self name (h : Heap W) cm m i l1 h1 v :
  (forall f args h0, same_shape h0 (fst (PyObject_Call f args h0))) ->
  class_map h = Some cm -> members cm name = Some (m, i) ->
  slots h !! i = Some None ->
  do_default m self name h = (l1, h1, Ret v) ->
  let pre := [member_ob m; self; name; NullObject] in
  exists c v1,
    calls_of l1 =
      handler_call (default_handler m) [member_ob m; self; name] c
      ++ stage_call (validate_handler m) pre c v1
      ++ stage_call (post_validate_handler m) pre v1 v
    /\ (forall f g,
          validate_handler m = Some f -> post_validate_handler m = Some g ->
          calls_of l1 =
            handler_call (default_handler m) [member_ob m; self; name] c
            ++ [EvCall f (pre ++ [c]) (Ret v1);
                EvCall g (pre ++ [v1]) (Ret v)])
    /\ (validate_handler m = None -> v1 = c)
    /\ (post_validate_handler m = None -> v = v1)
    /\ result (Atom_getattro self name h) = Ret v
    /\ slots (final (Atom_getattro self name h)) !! i = Some (Some v).
Proof.
  intros Hframe Hcm Hm Hs Hd pre.
  destruct (read_after_fill self name h cm m i l1 h1 v)
    as (Hread & _ & Hi); auto.
  apply do_default_ret in Hd as (c & v1 & Hc & _ & Hv & Hp).
  exists c, v1. split; [exact Hc|]. split; [|split; [done|split; [done|]]].
  - intros f g Hf Hg. rewrite Hc, Hf, Hg. reflexivity.
  - rewrite Hread. unfold result, final. simpl. split; [done|].
    by apply list_lookup_insert_eq.
Qed.

(** C4.  When default production fails, the read fails with the same error
    and stores nothing: it ends in the state default production left.  With
    handlers that leave the member's slot alone the slot is still NULL, so
    the next read of the member runs default production again and caches
    its value if it succeeds this time. *)
Theorem failed_default_not_cached self name (h : Heap W) cm m i l1 h1 e :
  class_map h = Some cm -> members cm name = Some (m, i) ->
  slots h !! i = Some None ->
  do_default m self name h = (l1, h1, Raise e) ->
  Atom_getattro self name h = (l1, h1, Raise e)
  /\ ((forall f args h0, same_slot i h0 (fst (PyObject_Call f args h0))) ->
      slots h1 !! i = Some None
      /\ Atom_getattro self name h1 = fill_slot m i self name h1
      /\ (forall l2 h2 v,
            do_default m self name h1 = (l2, h2, Ret v) ->
            logged (Atom_getattro self name h1) = l2 ++ [EvIncref v]
            /\ result (Atom_getattro self name h1) = Ret v
            /\ slots (final (Atom_getattro self name h1)) !! i
               = Some (Some v))).
Proof.
  intros Hcm Hm Hs Hd. split.
  { rewrite (getattro_absent self name h cm m i) by done.
    by apply fill_slot_raise. }
  intros Hquiet.
  pose proof (do_default_same_slot i m self name h Hquiet) as [[Hc1 _] Hs1].
  rewrite Hd in Hc1, Hs1. unfold final in Hc1, Hs1. simpl in Hc1, Hs1.
  assert (slots h1 !! i = Some None) as Hs' by congruence.
  assert (class_map h1 = Some cm) as Hcm' by congruence.
  split; [done|split].
  - by apply (getattro_absent self name h1 cm m i).
  - intros l2 h2 v Hd2.
    destruct (read_after_fill self name h1 cm m i l2 h2 v)
      as (Hread & _ & Hi); auto.
    { intros f args h0. apply Hquiet. }
    rewrite Hread. unfold logged, result, final. simpl.
    split; [done|split; [done|]]. by apply list_lookup_insert_eq.
Qed.

(** C9, as the code has it.  Every handler call of a default production is
    either the default handler on (member, atom, name) or a validation
    stage on (member, atom, name, [NullObject], candidate): the old value
    is always [NullObject].  Without a default handler the candidate the
    first stage present receives is [Py_None], and so is the result when
    the member has no handler at all. *)
Theorem default_candidate_is_none_old_is_null m a n (h : Heap W) :
  (forall g args r,
      In (EvCall g args r) (logged (do_default m a n h)) ->
      (default_handler m = Some g /\ args = [member_ob m; a; n])
      \/ exists c, args = [member_ob m; a; n; NullObject; c]
           /\ ((validate_handler m = Some g
                /\ (default_handler m = None -> c = Py_None))
               \/ (post_validate_handler m = Some g
                   /\ (default_handler m = None ->
                       validate_handler m = None -> c = Py_None))))
  /\ (forall v,
        result (do_default m a n h) = Ret v ->
        exists c v1,
          calls_of (logged (do_default m a n h)) =
            handler_call (default_handler m) [member_ob m; a; n] c
            ++ stage_call (validate_handler m)
                 [member_ob m; a; n; NullObject] c v1
            ++ stage_call (post_validate_handler m)
                 [member_ob m; a; n; NullObject] v1 v
          /\ (default_handler m = None -> c = Py_None)
          /\ (validate_handler m = None -> v1 = c)
          /\ (post_validate_handler m = None -> v = v1)).
Proof.
  split.
  - intros g args r. apply do_default_log_in.
  - intros v Hv. destruct (do_default m a n h) as [[l h'] r] eqn:Hrun.
    unfold result in Hv. simpl in Hv. subst r.
    apply do_default_ret in Hrun. exact Hrun.
Qed.

(** C10.  Deleting a member (a write with a NULL value) succeeds whatever
    the slot held, calls nothing and leaves the slot NULL; the next read
    of the member is default production again: it returns and caches the
    value produced, or fails with the error default production raised. *)
Theorem delete_resets_slot self name (h : Heap W) cm m i :
  (forall f args h0, same_shape h0 (fst (PyObject_Call f args h0))) ->
  class_map h = Some cm -> members cm name = Some (m, i) ->
  i < length (slots h) ->
  let deleted := Atom_setattro self name None h in
  deleted = ([], set_slots (<[i := None]> (slots h)) h, Ret 0%Z)
  /\ slots (final deleted) !! i = Some None
  /\ Atom_getattro self name (final deleted)
     = fill_slot m i self name (final deleted)
  /\ (forall l1 h1 v,
        do_default m self name (final deleted) = (l1, h1, Ret v) ->
        Atom_getattro self name (final deleted)
        = (l1 ++ [EvIncref v],
           incref v (set_slots (<[i := Some v]> (slots h1)) h1), Ret v))
  /\ (forall l1 h1 e,
        do_default m self name (final deleted) = (l1, h1, Raise e) ->
        Atom_getattro self name (final deleted) = (l1, h1, Raise e)).
Proof.
  intros Hframe Hcm Hm Hi deleted.
  assert (deleted = ([], set_slots (<[i := None]> (slots h)) h, Ret 0%Z))
    as Hdel.
  { unfold deleted. by rewrite (setattro_member self name None h cm m i). }
  assert (slots (final deleted) !! i = Some None) as Hs.
  { rewrite Hdel. unfold final. simpl. by apply list_lookup_insert_eq. }
  assert (class_map (final deleted) = Some cm) as Hcm'.
  { rewrite Hdel. exact Hcm. }
  assert (Atom_getattro self name (final deleted)
          = fill_slot m i self name (final deleted)) as Hget.
  { by apply (getattro_absent self name _ cm m i). }
  split; [done|split; [done|split; [done|split]]].
  - intros l1 h1 v Hd.
    by destruct (read_after_fill self name _ cm m i l1 h1 v Hframe Hcm' Hm Hs Hd).
  - intros l1 h1 e Hd. rewrite Hget. by apply fill_slot_raise.
Qed.

End Lifecycle.

(** ** Initialisation *)

Section Init.
Context {W : Type} `{Host W}.

Lemma init_kwargs_cons self key value rest (h : Heap W) l1 h1 r :
  Atom_setattro self key (Some value) h = (l1, h1, Ret r) -> (0 <= r)%Z ->
  init_kwargs self ((key, value) :: rest) h
  = (l1 ++ logged (init_kwargs self rest h1),
     final (init_kwargs self rest h1), result (init_kwargs self rest h1)).
Proof.
  intros Hset Hr. simpl. unfold PyObject_SetAttr.
  rewrite (bind_ret_run _ _ h l1 h1 r Hset).
  destruct (decide (r < 0)%Z); [lia | reflexivity].
Qed.

Lemma init_kwargs_applied self kw (h : Heap W) l h' :
  applied self kw h l h' -> init_kwargs self kw h = (l, h', Ret 0%Z).
Proof.
  induction 1 as [h|key value rest h l1 h1 r l2 h2 Hset Hr _ IH].
  - reflexivity.
  - rewrite (init_kwargs_cons self key value rest h l1 h1 r) by done.
    rewrite IH. reflexivity.
Qed.

Lemma init_kwargs_first_failure self pre key value post
    (h : Heap W) l1 h1 l2 h2 e :
  applied self pre h l1 h1 ->
  Atom_setattro self key (Some value) h1 = (l2, h2, Raise e) ->
  init_kwargs self (pre ++ (key, value) :: post) h = (l1 ++ l2, h2, Raise e).
Proof.
  intros Happ Hfail.
  induction Happ as [h|k0 v0 rest h l0 h0 r l3 h3 Hset Hr _ IH].
  - simpl. unfold PyObject_SetAttr. by apply bind_raise_run.
  - simpl app. rewrite (init_kwargs_cons self k0 v0 _ h l0 h0 r) by done.
    rewrite IH by done. unfold logged, final, result. simpl.
    by rewrite app_assoc.
Qed.

(** Whatever initialisation from a mapping ends with, it is one of two
    things: every pair was applied, or the pairs before the first failing
    one were applied and the run ended with that pair's failure. *)
Lemma init_kwargs_inv self kw (h : Heap W) l h' r :
  init_kwargs self kw h = (l, h', r) ->
  (applied self kw h l h' /\ r = Ret 0%Z)
  \/ exists pre key value post l1 h1 l2 r2,
       kw = pre ++ (key, value) :: post
       /\ applied self pre h l1 h1
       /\ Atom_setattro self key (Some value) h1 = (l2, h', r2)
       /\ l = l1 ++ l2
       /\ match r2 with
          | Ret z => (z < 0)%Z /\ r = Ret (-1)%Z
          | Raise e => r = Raise e
          | Fault => r = Fault
          end.
Proof.
  revert h l h' r. induction kw as [|[key value] rest IH]; intros h l h' r.
  - simpl. intros [= <- <- <-]. left. split; [constructor | done].
  - simpl. unfold PyObject_SetAttr. intros Hrun.
    apply bind_inv in Hrun
      as [(l1 & h1 & z & l2 & Hset & Hk & ->)|[(e & Hset & ->)|[Hset ->]]].
    + destruct (decide (z < 0)%Z) as [Hz|Hz].
      * injection Hk as <- <- <-. right.
        exists [], key, value, rest, [], h, l1, (Ret z).
        rewrite app_nil_r. repeat split; auto. constructor.
      * apply IH in Hk
          as [[Happ ->]|(pre & k & v & post & l3 & h3 & l4 & r2
                          & -> & Happ & Hs & -> & Hr)].
        -- left. split; [|done]. econstructor; eauto. lia.
        -- right. exists ((key, value) :: pre), k, v, post, (l1 ++ l3), h3, l4, r2.
           repeat split; auto.
           ++ econstructor; eauto. lia.
           ++ by rewrite app_assoc.
    + right. exists [], key, value, rest, [], h, l, (Raise e).
      repeat split; auto. constructor.
    + right. exists [], key, value, rest, [], h, l, Fault.
      repeat split; auto. constructor.
Qed.

(** C5.  Positional arguments make initialisation fail with a type error
    before anything is done.  Without them, a mapping is applied pair by
    pair through the write path in the order of the mapping: when all
    pairs succeed the result is 0; when a pair fails the run ends there
    with that pair's error, in the state the earlier pairs and the failed
    write left, and the later pairs are never looked at. *)
Theorem init_applies_pairs_until_first_failure self (h : Heap W) :
  (forall args kwargs,
      0 < length args ->
      Atom_init self args kwargs h
      = ([], h, Raise (TypeError "__init__() takes no positional arguments")))
  /\ Atom_init self [] None h = ([], h, Ret 0%Z)
  /\ (forall kw l h',
        applied self kw h l h' ->
        Atom_init self [] (Some kw) h = (l, h', Ret 0%Z))
  /\ (forall pre key value post l1 h1 l2 h2 e,
        applied self pre h l1 h1 ->
        Atom_setattro self key (Some value) h1 = (l2, h2, Raise e) ->
        Atom_init self [] (Some (pre ++ (key, value) :: post)) h
        = (l1 ++ l2, h2, Raise e))
  /\ (forall kw l h',
        Atom_init self [] (Some kw) h = (l, h', Ret 0%Z) ->
        applied self kw h l h').
Proof.
  split; [|split; [|split; [|split]]].
  - intros args kwargs Hargs. unfold Atom_init.
    destruct (decide (0 < length args)); [reflexivity | lia].
  - reflexivity.
  - intros kw l h' Happ. unfold Atom_init. simpl.
    by apply init_kwargs_applied.
  - intros pre key value post l1 h1 l2 h2 e Happ Hfail.
    unfold Atom_init. simpl. by eapply init_kwargs_first_failure.
  - intros kw l h' Hrun. unfold Atom_init in Hrun. simpl in Hrun.
    apply init_kwargs_inv in Hrun
      as [[Happ _]|(pre & k & v & post & l1 & h1 & l2 & r2
                     & _ & _ & _ & _ & Hr)]; [done|].
    destruct r2 as [z|e|]; [destruct Hr as [_ [=]] | discriminate..].
Qed.

End Init.

(** ** Overwriting a slot *)

Section Overwrite.
Context {W : Type} `{Host W}.

(** The write path on a member whose slot holds [old]: the slot now holds
    the new value, and the reference the slot had to [old] was never given
    up: no [Py_DECREF] is logged and the count of [old] is what it was. *)
Lemma setattro_overwrite_keeps_count self name v old (h : Heap W) cm m i :
  class_map h = Some cm -> members cm name = Some (m, i) ->
  slots h !! i = Some (Some old) -> old <> v ->
  let written := Atom_setattro self name (Some v) h in
  result written = Ret 0%Z
  /\ logged written = [EvIncref v]
  /\ slots (final written) !! i = Some (Some v)
  /\ ob_refcnt (final written) old = ob_refcnt h old.
Proof.
  intros Hcm Hm Hs Hne written.
  assert (i < length (slots h)) as Hi by (eapply lookup_lt_Some; eauto).
  unfold written. rewrite (setattro_member self name (Some v) h cm m i) by done.
  unfold result, logged, final. simpl. repeat split.
  - by apply list_lookup_insert_eq.
  - apply fn_lookup_insert_ne. congruence.
Qed.

End Overwrite.

(** ** Clearing and traversing *)

Section Collector.
Context {W : Type} `{Host W} {CH : ClassMapHeader}.

Lemma Py_CLEAR_slot_run pre x post (h : Heap W) :
  slots h = pre ++ x :: post ->
  Py_CLEAR_slot (length pre) h
  = (map EvDecref (present [x]),
     mkHeap (pre ++ None :: post) (class_map h)
       (release_all (present [x]) (ob_refcnt h)) (host h),
     Ret tt).
Proof.
  intros Hs. unfold Py_CLEAR_slot, bind at 1, read_slot.
  rewrite Hs, list_lookup_middle by done.
  destruct x as [tmp|]; simpl.
  - unfold bind, write_slot. simpl. rewrite Hs.
    destruct (decide (length pre < length (pre ++ Some tmp :: post)))
      as [_|Hn].
    + simpl. rewrite insert_app_r_alt by lia. rewrite Nat.sub_diag.
      reflexivity.
    + exfalso. apply Hn. rewrite length_app. simpl. lia.
  - unfold ret. destruct h as [s c rc w]. simpl in *. by subst s.
Qed.

Lemma release_all_app xs ys rc :
  release_all (xs ++ ys) rc = release_all ys (release_all xs rc).
Proof. apply fold_left_app. Qed.

(** The loop of [Atom_clear] over the indices of [mid]. *)
Lemma clear_loop_run mid : forall pre post (h : Heap W),
  slots h = pre ++ mid ++ post ->
  for_each Py_CLEAR_slot (seq (length pre) (length mid)) h
  = (map EvDecref (present mid),
     mkHeap (pre ++ replicate (length mid) None ++ post) (class_map h)
       (release_all (present mid) (ob_refcnt h)) (host h),
     Ret tt).
Proof.
  induction mid as [|x mid IH]; intros pre post h Hs.
  - simpl in *. unfold ret. destruct h as [s c rc w]. simpl in *. by subst s.
  - cbn [length seq for_each].
    rewrite (bind_ret_run _ _ h _ _ tt (Py_CLEAR_slot_run pre x (mid ++ post) h Hs)).
    set (h1 := mkHeap (pre ++ None :: mid ++ post) (class_map h)
                 (release_all (present [x]) (ob_refcnt h)) (host h)).
    specialize (IH (pre ++ [None]) post h1).
    rewrite length_app in IH. simpl in IH.
    replace (length pre + 1) with (S (length pre)) in IH by lia.
    rewrite IH by (simpl; by rewrite <- app_assoc).
    unfold logged, final, result. simpl.
    rewrite <- app_assoc. by destruct x.
Qed.

Lemma Atom_clear_run (h : Heap W) cm :
  class_map h = Some cm -> length (slots h) = member_count cm ->
  Atom_clear h
  = (map EvDecref (present (slots h)) ++ [EvDecref (class_map_ob cm)],
     mkHeap (replicate (member_count cm) None) None
       (release_all (referents h) (ob_refcnt h)) (host h),
     Ret tt).
Proof.
  intros Hcm Hlen. unfold Atom_clear, bind at 1, read_class_map.
  rewrite Hcm. unfold bind at 1. simpl. rewrite <- Hlen.
  pose proof (clear_loop_run (slots h) [] [] h) as Hloop.
  simpl in Hloop. rewrite app_nil_r in Hloop. specialize (Hloop eq_refl).
  rewrite (bind_ret_run _ _ h _ _ tt Hloop).
  unfold Py_CLEAR_class_map, bind, read_class_map, write_class_map.
  simpl. rewrite Hcm. unfold logged, final, result, referents. simpl.
  rewrite Hcm. simpl. rewrite app_nil_r, release_all_app. reflexivity.
Qed.

(** C8.  On a live instance [Atom_clear] gives up the present slot values
    in index order and the class map last; it ends with every slot NULL
    and the class-map pointer NULL.  After the first [k] rounds of the loop
    exactly the first [k] slots are NULL, exactly their values have been
    released, and the class map is still held. *)
Theorem clear_releases_slots_then_class_map (h : Heap W) cm :
  class_map h = Some cm -> length (slots h) = member_count cm ->
  logged (Atom_clear h)
  = map EvDecref (present (slots h)) ++ [EvDecref (class_map_ob cm)]
  /\ result (Atom_clear h) = Ret tt
  /\ slots (final (Atom_clear h)) = replicate (member_count cm) None
  /\ (forall i, i < member_count cm ->
        slots (final (Atom_clear h)) !! i = Some None)
  /\ class_map (final (Atom_clear h)) = None
  /\ ob_refcnt (final (Atom_clear h))
     = release_all (referents h) (ob_refcnt h)
  /\ (forall k, k <= member_count cm ->
        let partial := for_each Py_CLEAR_slot (seq 0 k) h in
        logged partial = map EvDecref (present (take k (slots h)))
        /\ slots (final partial) = replicate k None ++ drop k (slots h)
        /\ class_map (final partial) = Some cm).
Proof.
  intros Hcm Hlen. rewrite (Atom_clear_run h cm) by done.
  unfold logged, result, final. simpl.
  split; [done|split; [done|split; [done|split; [|split; [done|split; [done|]]]]]].
  - intros i Hi. by apply lookup_replicate_2.
  - intros k Hk.
    pose proof (clear_loop_run (take k (slots h)) [] (drop k (slots h)) h)
      as Hloop.
    simpl in Hloop. rewrite take_drop in Hloop. specialize (Hloop eq_refl).
    rewrite length_take, Nat.min_l in Hloop by lia.
    rewrite Hloop. simpl. done.
Qed.

End Collector.

(** ** Traversal *)

Section Traversal.
Context {W : Type} `{Host W} {CH : ClassMapHeader}.
Variable visit : visitproc W.

Lemma set_host_id (h : Heap W) : set_host (host h) h = h.
Proof. by destruct h. Qed.

Lemma visit_list_app xs ys (w : W) :
  visit_list visit (xs ++ ys) w
  = match visit_list visit xs w with
    | (l1, w1, r1) =>
        if decide (r1 = 0%Z)
        then match visit_list visit ys w1 with
             | (l2, w2, r2) => (l1 ++ l2, w2, r2)
             end
        else (l1, w1, r1)
    end.
Proof.
  revert w. induction xs as [|x xs IH]; intros w; simpl.
  - by destruct (visit_list visit ys w) as [[l2 w2] r2].
  - destruct (visit x w) as [w1 vret].
    destruct (decide (vret = 0%Z)) as [->|Hne].
    + rewrite IH. destruct (visit_list visit xs w1) as [[l1 w2] r1].
      destruct (decide (r1 = 0%Z)); [|done].
      by destruct (visit_list visit ys w2) as [[l2 w3] r2].
    + by destruct (decide (vret = 0%Z)).
Qed.

(** The loop of [Atom_traverse] over the indices of [mid] reports the
    present values of [mid]. *)
Lemma traverse_loop_run mid : forall pre post (h : Heap W),
  slots h = pre ++ mid ++ post ->
  traverse_slots visit (seq (length pre) (length mid)) h
  = match visit_list visit (present mid) (host h) with
    | (l, w, r) => (l, set_host w h, Ret r)
    end.
Proof.
  induction mid as [|x mid IH]; intros pre post h Hs.
  - simpl. unfold ret. by rewrite set_host_id.
  - cbn [length seq traverse_slots]. unfold bind at 1, read_slot.
    assert (slots h = (pre ++ [x]) ++ mid ++ post) as Hs'.
    { rewrite Hs. by rewrite <- app_assoc. }
    simpl in Hs. rewrite Hs, list_lookup_middle by done.
    assert (S (length pre) = length (pre ++ [x])) as Hlen.
    { rewrite length_app. simpl. lia. }
    destruct x as [o|].
    + unfold bind at 1. simpl.
      destruct (visit o (host h)) as [w1 vret].
      destruct (decide (vret = 0%Z)) as [->|Hne].
      * rewrite Hlen, (IH (pre ++ [Some o]) post (set_host w1 h)) by done.
        simpl. by destruct (visit_list visit (present mid) w1) as [[l w2] r].
      * unfold ret. simpl. reflexivity.
    + unfold bind at 1. simpl.
      rewrite Hlen, (IH (pre ++ [None]) post h) by done.
      by destruct (visit_list visit (present mid) (host h)) as [[l w2] r].
Qed.

(** On a live instance [Atom_traverse] is the traversal of the spec over
    the present slot values followed by the class map; only the visitor's
    own state changes. *)
Lemma Atom_traverse_run (h : Heap W) cm :
  class_map h = Some cm -> length (slots h) = member_count cm ->
  Atom_traverse visit h
  = match visit_list visit (referents h) (host h) with
    | (l, w, r) => (l, set_host w h, Ret r)
    end.
Proof.
  intros Hcm Hlen. unfold Atom_traverse, bind at 1, read_class_map.
  rewrite Hcm. unfold bind at 1. simpl. rewrite <- Hlen.
  pose proof (traverse_loop_run (slots h) [] [] h) as Hloop.
  simpl in Hloop. rewrite app_nil_r in Hloop. specialize (Hloop eq_refl).
  unfold bind at 1. rewrite Hloop.
  unfold referents. rewrite Hcm, visit_list_app. simpl.
  destruct (visit_list visit (present (slots h)) (host h)) as [[l1 w1] r1].
  destruct (decide (r1 = 0%Z)) as [->|Hne].
  - unfold bind, read_class_map. simpl. rewrite Hcm. simpl.
    destruct (visit (class_map_ob cm) w1) as [w2 vret].
    destruct (decide (vret = 0%Z)); subst; reflexivity.
  - unfold ret. simpl. by rewrite app_nil_r.
Qed.

Lemma visit_list_zero objs (w : W) :
  (forall o w0, In o objs -> snd (visit o w0) = 0%Z) ->
  fst (fst (visit_list visit objs w)) = map (fun o => EvVisit o 0%Z) objs
  /\ snd (visit_list visit objs w) = 0%Z.
Proof.
  revert w. induction objs as [|o objs IH]; intros w Hz; simpl; [done|].
  pose proof (Hz o w (or_introl eq_refl)) as Ho.
  destruct (visit o w) as [w1 vret]. simpl in Ho. subst vret. simpl.
  destruct (IH w1) as [Hl Hr]; [intros; apply Hz; by right|].
  destruct (visit_list visit objs w1) as [[l w2] r]. simpl in *.
  by subst.
Qed.

(** X9.  Before [Atom_clear]: a visitor that answers 0 is shown each
    present slot value in index order and then the class map, once each,
    and nothing else; slots, class map and reference counts are as
    before. *)
Lemma traverse_reports_referents (h : Heap W) cm :
  class_map h = Some cm -> length (slots h) = member_count cm ->
  (forall o w0, In o (referents h) -> snd (visit o w0) = 0%Z) ->
  logged (Atom_traverse visit h) = map (fun o => EvVisit o 0%Z) (referents h)
  /\ result (Atom_traverse visit h) = Ret 0%Z
  /\ same_atom h (final (Atom_traverse visit h))
  /\ ob_refcnt (final (Atom_traverse visit h)) = ob_refcnt h.
Proof.
  intros Hcm Hlen Hz. rewrite (Atom_traverse_run h cm) by done.
  destruct (visit_list_zero (referents h) (host h) Hz) as [Hl Hr].
  destruct (visit_list visit (referents h) (host h)) as [[l w] r].
  simpl in *. subst. unfold logged, result, final, same_atom. simpl. done.
Qed.

End Traversal.

(** ** Instances without a class map *)

Section Cleared.
Context {W : Type} `{Host W} {CH : ClassMapHeader}.

(** Over slots that are all NULL the loop of [Atom_clear] releases
    nothing; it runs off the slot array when the count exceeds it. *)
Lemma clear_loop_nulls k (h : Heap W) :
  slots h = replicate k None ->
  forall n i, i <= k ->
  for_each Py_CLEAR_slot (seq i n) h
  = ([], h, if decide (i + n <= k) then Ret tt else Fault).
Proof.
  intros Hs. induction n as [|n IH]; intros i Hi.
  - simpl. unfold ret. by rewrite decide_True by lia.
  - cbn [seq for_each]. unfold bind at 1, Py_CLEAR_slot, bind at 1, read_slot.
    rewrite Hs. destruct (decide (i < k)) as [Hlt|Hge].
    + rewrite lookup_replicate_2 by done. unfold ret at 1.
      rewrite IH by lia.
      destruct (decide (S i + n <= k)), (decide (i + S n <= k)); try lia; done.
    + assert (replicate k (@None PyObj) !! i = None) as Hout
        by (apply lookup_replicate_None; lia).
      rewrite Hout. by rewrite decide_False by lia.
Qed.

Lemma traverse_loop_nulls (visit : visitproc W) k (h : Heap W) :
  slots h = replicate k None ->
  forall n i, i <= k ->
  traverse_slots visit (seq i n) h
  = ([], h, if decide (i + n <= k) then Ret 0%Z else Fault).
Proof.
  intros Hs. induction n as [|n IH]; intros i Hi.
  - simpl. unfold ret. by rewrite decide_True by lia.
  - cbn [seq traverse_slots]. unfold bind at 1, read_slot.
    rewrite Hs. destruct (decide (i < k)) as [Hlt|Hge].
    + rewrite lookup_replicate_2 by done. unfold bind at 1. simpl.
      rewrite IH by lia.
      destruct (decide (S i + n <= k)), (decide (i + S n <= k)); try lia; done.
    + assert (replicate k (@None PyObj) !! i = None) as Hout
        by (apply lookup_replicate_None; lia).
      rewrite Hout. by rewrite decide_False by lia.
Qed.

(** [Atom_clear] on an instance whose class map and slots are all NULL. *)
Lemma Atom_clear_null k (h : Heap W) :
  class_map h = None -> slots h = replicate k None ->
  Atom_clear h
  = ([], h,
     match MemberCount_of_NULL with
     | Some n => if decide (n <= k) then Ret tt else Fault
     | None => Fault
     end).
Proof.
  intros Hcm Hs. unfold Atom_clear, bind at 1, read_class_map.
  rewrite Hcm. unfold bind at 1, ClassMap_MemberCount.
  destruct MemberCount_of_NULL as [n|]; [|done].
  unfold ret at 1. unfold bind at 1.
  rewrite (clear_loop_nulls k h Hs n 0) by lia. simpl.
  destruct (decide (n <= k)); [|done].
  unfold Py_CLEAR_class_map, bind, read_class_map. rewrite Hcm. done.
Qed.

(** [Atom_traverse] on such an instance, whatever the visitor. *)
Lemma Atom_traverse_null (visit : visitproc W) k (h : Heap W) :
  class_map h = None -> slots h = replicate k None ->
  Atom_traverse visit h
  = ([], h,
     match MemberCount_of_NULL with
     | Some n => if decide (n <= k) then Ret 0%Z else Fault
     | None => Fault
     end).
Proof.
  intros Hcm Hs. unfold Atom_traverse, bind at 1, read_class_map.
  rewrite Hcm. unfold bind at 1, ClassMap_MemberCount.
  destruct MemberCount_of_NULL as [n|]; [|done].
  unfold ret at 1. unfold bind at 1.
  rewrite (traverse_loop_nulls visit k h Hs n 0) by lia. simpl.
  destruct (decide (n <= k)); [|done].
  simpl. unfold bind, read_class_map. rewrite Hcm. done.
Qed.

Lemma null_count_within_run {A} k (a : A) :
  null_count_within k ->
  match MemberCount_of_NULL with
  | Some n => if decide (n <= k) then Ret a else Fault
  | None => Fault
  end = Ret a.
Proof. intros (n & -> & Hn). by rewrite decide_True. Qed.

Lemma null_count_beyond_run {A} k (a : A) :
  ~ null_count_within k ->
  match MemberCount_of_NULL with
  | Some n => if decide (n <= k) then Ret a else Fault
  | None => Fault
  end = Fault.
Proof.
  intros Hn. destruct MemberCount_of_NULL as [n|] eqn:Hc; [|done].
  destruct (decide (n <= k)); [|done].
  exfalso. apply Hn. exists n. by rewrite Hc.
Qed.

(** C7.  Before [Atom_clear], a visitor that answers 0 is shown each
    present slot value in index order and then the class map, and nothing
    else.  After [Atom_clear] no visitor is shown anything and the instance
    is left as it is; the traversal returns 0 whenever
    [ClassMap_MemberCount] answers a NULL class map with a count within the
    slot array, and is undefined otherwise. *)
Theorem traverse_before_and_after_clear
    (visit visit' : visitproc W) (h : Heap W) cm :
  class_map h = Some cm -> length (slots h) = member_count cm ->
  (forall o w0, In o (referents h) -> snd (visit o w0) = 0%Z) ->
  let cleared := final (Atom_clear h) in
  (logged (Atom_traverse visit h) = map (fun o => EvVisit o 0%Z) (referents h)
   /\ result (Atom_traverse visit h) = Ret 0%Z
   /\ same_atom h (final (Atom_traverse visit h))
   /\ ob_refcnt (final (Atom_traverse visit h)) = ob_refcnt h)
  /\ (logged (Atom_traverse visit' cleared) = []
      /\ final (Atom_traverse visit' cleared) = cleared
      /\ (null_count_within (member_count cm) ->
          result (Atom_traverse visit' cleared) = Ret 0%Z)
      /\ (~ null_count_within (member_count cm) ->
          result (Atom_traverse visit' cleared) = Fault)).
Proof.
  intros Hcm Hlen Hz cleared. split.
  - rewrite (Atom_traverse_run visit h cm) by done.
    destruct (visit_list_zero visit (referents h) (host h) Hz) as [Hl Hr].
    destruct (visit_list visit (referents h) (host h)) as [[l w] r].
    simpl in *. subst. unfold logged, result, final, same_atom. simpl. done.
  - subst cleared. rewrite (Atom_clear_run h cm) by done.
    unfold final at 1 3 4 5 6. simpl.
    rewrite (Atom_traverse_null visit' (member_count cm)) by done.
    unfold logged, final, result. simpl.
    split; [done|split; [done|split]].
    + apply null_count_within_run.
    + apply null_count_beyond_run.
Qed.

End Cleared.

(** ** The functions at work in the small interpreter *)

Section Runs.
Import Demo.

Lemma interp_keeps_slot i f args (h : Heap nat) :
  same_slot i h (fst (PyObject_Call f args h)).
Proof. split; [split|]; reflexivity. Qed.

Lemma interp_keeps_shape f args (h : Heap nat) :
  same_shape h (fst (PyObject_Call f args h)).
Proof. split; reflexivity. Qed.

Lemma applied_one self key value (h : Heap nat) :
  result (Atom_setattro self key (Some value) h) = Ret 0%Z ->
  applied self [(key, value)] h
    (logged (Atom_setattro self key (Some value) h) ++ [])
    (final (Atom_setattro self key (Some value) h)).
Proof.
  intros Hr. eapply applied_cons; [|reflexivity|constructor].
  rewrite (run_eta (Atom_setattro self key (Some value) h)) at 1.
  by rewrite Hr.
Qed.

Lemma default_cached_on_first_read_witness :
  let first := Atom_getattro 40 10 fresh in
  let second := Atom_getattro 40 10 (final first) in
  result first = Ret 117
  /\ slots (final first) !! 0 = Some (Some 117)
  /\ result second = Ret 117
  /\ calls_of (logged second) = [].
Proof.
  pose proof (default_cached_on_first_read 40 10 fresh map full 0
                (logged (do_default full 40 10 fresh))
                (final (do_default full 40 10 fresh)) 117
                interp_keeps_shape eq_refl eq_refl eq_refl eq_refl)
    as (_ & H1 & H2 & _ & H3 & _ & _ & H4 & _).
  exact (conj H1 (conj H2 (conj H3 H4))).
Defined.

Lemma write_then_read_witness :
  let written := Atom_setattro 40 13 (Some 77) filled in
  result (Atom_getattro 40 13 (final written)) = Ret 77
  /\ calls_of (logged written) = [].
Proof.
  pose proof (write_then_read 40 13 77 filled map checked 3
                eq_refl eq_refl) as Hthm.
  destruct Hthm as (_ & H1 & H2 & _); [simpl; lia|].
  exact (conj H2 H1).
Defined.

Lemma default_validate_then_post_validate_witness :
  exists c v1,
    calls_of (logged (do_default full 40 10 fresh))
    = [EvCall 100 [20; 40; 10] (Ret c);
       EvCall 101 [20; 40; 10; 2; c] (Ret v1);
       EvCall 102 [20; 40; 10; 2; v1] (Ret 117)]
    /\ slots (final (Atom_getattro 40 10 fresh)) !! 0 = Some (Some 117).
Proof.
  pose proof (default_validate_then_post_validate 40 10 fresh map full 0
                (logged (do_default full 40 10 fresh))
                (final (do_default full 40 10 fresh)) 117
                interp_keeps_shape eq_refl eq_refl eq_refl eq_refl)
    as (c & v1 & _ & Hboth & _ & _ & _ & Hslot).
  exists c, v1. split; [|exact Hslot].
  exact (Hboth 101 102 eq_refl eq_refl).
Defined.

Lemma flaky_second_run :
  do_default flaky 40 14 (final (do_default flaky 40 14 fresh))
  = (logged (do_default flaky 40 14 (final (do_default flaky 40 14 fresh))),
     final (do_default flaky 40 14 (final (do_default flaky 40 14 fresh))),
     Ret 9).
Proof. vm_compute. reflexivity. Qed.

Lemma failed_default_not_cached_witness :
  let h1 := final (do_default flaky 40 14 fresh) in
  Atom_getattro 40 14 fresh
  = (logged (do_default flaky 40 14 fresh), h1, Raise (PyErr 56))
  /\ slots h1 !! 4 = Some None
  /\ result (Atom_getattro 40 14 h1) = Ret 9
  /\ slots (final (Atom_getattro 40 14 h1)) !! 4 = Some (Some 9).
Proof.
  pose proof (failed_default_not_cached 40 14 fresh map flaky 4
                (logged (do_default flaky 40 14 fresh))
                (final (do_default flaky 40 14 fresh)) (PyErr 56)
                eq_refl eq_refl eq_refl eq_refl) as (Hfirst & Hrest).
  destruct (Hrest (interp_keeps_slot 4)) as (Hslot & _ & Hretry).
  destruct (Hretry _ _ 9 flaky_second_run) as (_ & Hr & Hs).
  exact (conj Hfirst (conj Hslot (conj Hr Hs))).
Defined.

Lemma clear_releases_slots_then_class_map_witness :
  logged (Atom_clear filled) = [EvDecref 8; EvDecref 9; EvDecref 30]
  /\ slots (final (Atom_clear filled)) = [None; None; None; None; None]
  /\ class_map (final (Atom_clear filled)) = None.
Proof.
  pose proof (clear_releases_slots_then_class_map filled map
                eq_refl eq_refl) as (Hl & _ & Hs & _ & Hc & _).
  exact (conj Hl (conj Hs Hc)).
Defined.

Lemma delete_resets_slot_witness :
  let deleted := Atom_setattro 40 11 None filled in
  result deleted = Ret 0%Z
  /\ slots (final deleted) !! 1 = Some None
  /\ result (Atom_getattro 40 11 (final deleted)) = Ret 1.
Proof.
  pose proof (delete_resets_slot 40 11 filled map bare 1
                interp_keeps_shape eq_refl eq_refl) as Hthm.
  destruct Hthm as (Hdel & Hs & _ & Hread & _); [simpl; lia|].
  cbv zeta. rewrite Hdel. unfold result at 1. cbn [snd].
  split; [reflexivity|]. rewrite Hdel in Hs. split; [exact Hs|].
  rewrite Hdel in Hread.
  erewrite Hread; reflexivity.
Defined.

(** Initialisation at work: name 10 is set, name 900 is refused by the generic store,
    name 11 is never written; slot 0 keeps the value written before the
    failure. *)
Lemma init_applies_pairs_until_first_failure_witness :
  let run := Atom_init 40 [] (Some [(10, 5); (900, 6); (11, 7)]) fresh in
  result run = Raise (PyErr 67)
  /\ slots (final run) = [Some 5; None; None; None; None]
  /\ Atom_init 40 [3] (Some [(10, 5)]) fresh
     = ([], fresh,
        Raise (TypeError "__init__() takes no positional arguments")).
Proof.
  destruct (init_applies_pairs_until_first_failure 40 fresh)
    as (Hargs & _ & _ & Hfail & _).
  pose proof (Hfail [(10, 5)] 900 6 [(11, 7)] _ _
                (logged (Atom_setattro 40 900 (Some 6)
                           (final (Atom_setattro 40 10 (Some 5) fresh))))
                (final (Atom_setattro 40 900 (Some 6)
                          (final (Atom_setattro 40 10 (Some 5) fresh))))
                (PyErr 67)
                (applied_one 40 10 5 fresh eq_refl) eq_refl) as Hrun.
  split; [exact (f_equal result Hrun)|split].
  - exact (f_equal (fun x => slots (final x)) Hrun).
  - apply Hargs. simpl. lia.
Defined.

(** C6 at work: slot 1 of [filled] holds object 8; writing object 77 to
    name 11 puts 77 in the slot, takes a reference to 77 and gives up
    none: the count of object 8 is unchanged although the slot no longer
    refers to it. *)
Theorem overwrite_keeps_reference_to_old_value :
  let written := Atom_setattro 40 11 (Some 77) filled in
  slots filled !! 1 = Some (Some 8)
  /\ result written = Ret 0%Z
  /\ logged written = [EvIncref 77]
  /\ slots (final written) !! 1 = Some (Some 77)
  /\ ob_refcnt (final written) 8 = ob_refcnt filled 8.
Proof.
  split; [reflexivity|].
  apply (setattro_overwrite_keeps_count 40 11 77 8 filled map bare 1);
    [reflexivity..|lia].
Qed.

(** Traversal of [filled] before and after [Atom_clear], with two
    visitors. *)
Lemma traverse_before_and_after_clear_witness :
  let cleared := final (Atom_clear filled) in
  logged (Atom_traverse count_visit filled)
  = List.map (fun o => EvVisit o 0%Z) (referents filled)
  /\ logged (Atom_traverse stop_at_8 cleared) = []
  /\ final (Atom_traverse stop_at_8 cleared) = cleared
  /\ result (Atom_traverse stop_at_8 cleared) = Ret 0%Z.
Proof.
  destruct (traverse_before_and_after_clear count_visit stop_at_8 filled map
              eq_refl eq_refl (fun _ _ _ => eq_refl))
    as ((Hl & _) & Hl' & Hf & Hok & _).
  exact (conj Hl (conj Hl' (conj Hf
           (Hok (ex_intro _ 0 (conj eq_refl (Nat.le_0_l _))))))).
Defined.

(** After [Atom_clear] every slot and the class-map pointer are NULL.  With
    a [ClassMap_MemberCount] that answers NULL with 0 the traversal reports
    nothing and returns 0; with one that reads through NULL it is
    undefined. *)
Example traverse_cleared :
  let cleared := final (Atom_clear filled) in
  class_map cleared = None
  /\ slots cleared = [None; None; None; None; None]
  /\ Atom_traverse count_visit cleared = ([], cleared, Ret 0%Z)
  /\ Atom_traverse (CH := unchecked) count_visit cleared
     = ([], cleared, Fault).
Proof. repeat split; reflexivity. Qed.

(** Before [Atom_clear]: the two present values and the class map are
    reported in this order. *)
Example traverse_filled :
  logged (Atom_traverse count_visit filled)
  = [EvVisit 8 0; EvVisit 9 0; EvVisit 30 0]
  /\ result (Atom_traverse count_visit filled) = Ret 0%Z.
Proof. split; reflexivity. Qed.

(** A visitor that answers 1 at object 8 ends the traversal there. *)
Example traverse_stops_early :
  logged (Atom_traverse stop_at_8 filled) = [EvVisit 8 1]
  /\ result (Atom_traverse stop_at_8 filled) = Ret 1%Z.
Proof. split; reflexivity. Qed.

(** C9 as stated fails: member 23 has no default handler and validate
    handler 101; its validate call receives object 2 ([NullObject]) as the
    old value and object 1 ([Py_None]) as the candidate, and no call of
    this default production receives one object in both places. *)
Lemma validate_old_value_differs_from_candidate :
  calls_of (logged (do_default checked 40 13 fresh))
  = [EvCall 101 [23; 40; 13; 2; 1] (Ret 11)]
  /\ ~ (exists p r,
         In (EvCall 101 [23; 40; 13; p; p] r)
            (logged (do_default checked 40 13 fresh))).
Proof.
  split; [reflexivity|].
  intros (p & r & Hin). vm_compute in Hin.
  repeat (destruct Hin as [Hin|Hin]; [congruence|]).
  destruct Hin.
Qed.

End Runs.

(** ** References taken and given up *)

Section References.
Context {W : Type} {HH : Host W}.

Lemma held_app o l1 l2 : held o (l1 ++ l2) = (held o l1 + held o l2)%Z.
Proof. induction l1 as [|e l1 IH]; simpl; [done | rewrite IH; lia]. Qed.

Lemma held_tuple o args :
  (held o (map EvIncref args) + held o (map EvDecref args))%Z = 0%Z.
Proof.
  induction args as [|a args IH]; simpl; [done|].
  destruct (decide (a = o)); lia.
Qed.

Lemma held_decref o p :
  held o [EvDecref p] = (- indicator (bool_decide (p = o)))%Z.
Proof.
  simpl. unfold indicator.
  destruct (decide (p = o)) as [->|Hne].
  - by rewrite bool_decide_eq_true_2.
  - by rewrite bool_decide_eq_false_2.
Qed.

Lemma held_incref o p :
  held o [EvIncref p] = indicator (bool_decide (p = o)).
Proof.
  simpl. unfold indicator.
  destruct (decide (p = o)) as [->|Hne].
  - by rewrite bool_decide_eq_true_2.
  - by rewrite bool_decide_eq_false_2.
Qed.

Lemma held_call o f args r :
  held o [EvCall f args r] = indicator (returns o r).
Proof.
  destruct r as [v|e|]; simpl; [|done..]. unfold indicator.
  destruct (decide (v = o)) as [->|Hne].
  - by rewrite bool_decide_eq_true_2.
  - by rewrite bool_decide_eq_false_2.
Qed.

(** The log of a handler block that did not end in undefined behaviour. *)
Lemma call_handler_log f args res (h : Heap W) l h' r :
  call_handler f args res h = (l, h', r) -> r <> Fault ->
  l = map EvIncref args ++ EvCall f args r :: EvDecref res
        :: map EvDecref args
  \/ (l = [EvDecref res] /\ r = Raise MemoryError
      /\ PyTuple_New (length args) h = false).
Proof.
  unfold call_handler, tuple_new. unfold bind at 1.
  destruct (PyTuple_New (length args) h).
  - unfold bind at 1. rewrite for_each_incref_run.
    set (h1 := final (for_each Py_INCREF args h)).
    unfold bind at 1. unfold attempt, call.
    destruct (PyObject_Call f args h1) as [h2 r2].
    destruct r2 as [v|e|]; rewrite ?leave_block_run;
      intros [= <- <- <-] Hnf; [by left | by left | done].
  - unfold bind, Py_DECREF, raise. simpl. intros [= <- <- <-] _. right. auto.
Qed.

Lemma call_handler_held o f args res (h : Heap W) l h' r :
  call_handler f args res h = (l, h', r) -> r <> Fault ->
  held o l
  = (indicator (returns o r) - indicator (bool_decide (res = o)))%Z.
Proof.
  intros Hrun Hnf.
  destruct (call_handler_log f args res h l h' r Hrun Hnf)
    as [->|(-> & -> & _)].
  - rewrite held_app.
    change (EvCall f args r :: EvDecref res :: map EvDecref args)
      with ([EvCall f args r] ++ [EvDecref res] ++ map EvDecref args).
    rewrite !held_app, held_call, held_decref.
    pose proof (held_tuple o args). lia.
  - rewrite held_decref. simpl. lia.
Qed.

Lemma stage_held o handler pre res (h : Heap W) l h' r :
  stage handler pre res h = (l, h', r) -> r <> Fault ->
  held o l
  = (indicator (returns o r) - indicator (bool_decide (res = o)))%Z.
Proof.
  destruct handler as [f|]; simpl.
  - apply call_handler_held.
  - intros [= <- <- <-] _. simpl. lia.
Qed.

Lemma do_validate_held o m a n old val (h : Heap W) l h' r :
  do_validate m a n old val h = (l, h', r) -> r <> Fault ->
  held o l = indicator (returns o r).
Proof.
  unfold do_validate. intros Hrun Hnf.
  apply bind_inv in Hrun
    as [(l0 & h0 & [] & l1 & Hinc & Hrun & ->)|[(e & [=] & _)|[[=] _]]].
  injection Hinc as <- <-.
  apply bind_inv in Hrun
    as [(l2 & h2 & v1 & l3 & Hs1 & Hs2 & ->)|[(e & Hs1 & ->)|[_ ->]]];
    [| |done].
  - apply stage_held with (o := o) in Hs1; [|done].
    apply stage_held with (o := o) in Hs2; [|done].
    rewrite !held_app, held_incref, Hs1, Hs2. simpl. lia.
  - apply stage_held with (o := o) in Hs1; [|done].
    rewrite !held_app, held_incref, Hs1. simpl. lia.
Qed.

Lemma default_stage_held o m a n (h : Heap W) l h' r :
  match default_handler m with
  | Some f => call_handler f [member_ob m; a; n] Py_None
  | None => ret Py_None
  end h = (l, h', r) ->
  r <> Fault ->
  held o l
  = (indicator (returns o r) - indicator (bool_decide (Py_None = o)))%Z.
Proof.
  destruct (default_handler m) as [f|].
  - apply call_handler_held.
  - intros [= <- <- <-] _. simpl. lia.
Qed.

(** X1.  Default production keeps no reference but the one it returns:
    whatever it took with [Py_INCREF] or was handed as the answer of a
    handler it has given up again when it ends, on success and on failure
    alike. *)
Theorem do_default_holds_only_its_result o m a n (h : Heap W) l h' r :
  do_default m a n h = (l, h', r) -> r <> Fault ->
  held o l = indicator (returns o r).
Proof.
  unfold do_default. intros Hrun Hnf.
  apply bind_inv in Hrun
    as [(l0 & h0 & [] & l1 & Hinc & Hrun & ->)|[(e & [=] & _)|[[=] _]]].
  injection Hinc as <- <-.
  apply bind_inv in Hrun
    as [(l2 & h2 & c & l3 & Hd & Hrun & ->)|[(e & Hd & ->)|[_ ->]]];
    [| |done].
  - apply default_stage_held with (o := o) in Hd; [|done].
    apply bind_inv in Hrun
      as [(l4 & h4 & rv & l5 & Hv & Hrun & ->)|[(e & Hv & _)|[_ ->]]];
      [| |done].
    + apply attempt_inv in Hv as [Hv Hvf].
      apply do_validate_held with (o := o) in Hv; [|done].
      apply bind_inv in Hrun
        as [(l6 & h6 & [] & l7 & Hdec & Hrun & ->)|[(e & [=] & _)|[[=] _]]].
      injection Hdec as <- <-.
      unfold lift in Hrun. injection Hrun as <- <- <-.
      rewrite !held_app, held_incref, Hd, Hv, held_decref. simpl. lia.
    + unfold attempt in Hv.
      destruct (do_validate m a n NullObject c h2) as [[? ?] [?|?|]];
        discriminate.
  - apply default_stage_held with (o := o) in Hd; [|done].
    rewrite !held_app, held_incref, Hd. simpl. lia.
Qed.

(** X2.  Reading a member takes one reference for the caller when the
    slot holds a value, two (the slot's and the caller's) when the slot
    was NULL and default production succeeded, and none when the read
    fails. *)
Theorem getattro_member_references o self name (h : Heap W) cm m i s l h' r :
  class_map h = Some cm -> members cm name = Some (m, i) ->
  slots h !! i = Some s ->
  Atom_getattro self name h = (l, h', r) -> r <> Fault ->
  held o l
  = ((match s with Some _ => 1 | None => 2 end)
     * indicator (returns o r))%Z.
Proof.
  intros Hcm Hm Hs Hrun Hnf. destruct s as [v|].
  - rewrite (getattro_present self name h cm m i v) in Hrun by done.
    injection Hrun as <- <- <-. rewrite held_incref. simpl. lia.
  - rewrite (getattro_absent self name h cm m i) in Hrun by done.
    unfold fill_slot in Hrun.
    apply bind_inv in Hrun
      as [(l0 & h0 & v & l1 & Hd & Hrun & ->)|[(e & Hd & ->)|[_ ->]]];
      [| |done].
    + apply do_default_holds_only_its_result with (o := o) in Hd; [|done].
      apply bind_inv in Hrun
        as [(l2 & h2 & [] & l3 & Hw & Hrun & ->)|[(e & Hw & _)|[_ ->]]];
        [| |done].
      * apply bind_inv in Hrun
          as [(l4 & h4 & [] & l5 & Hinc & Hrun & ->)|[(e & [=] & _)|[[=] _]]].
        injection Hinc as <- <-. injection Hrun as <- <- <-.
        assert (l2 = []) as ->.
        { unfold write_slot in Hw.
          destruct (decide (i < length (slots h0))); by injection Hw. }
        rewrite !held_app, Hd, held_incref. simpl. lia.
      * unfold write_slot in Hw.
        destruct (decide (i < length (slots h0))); discriminate.
    + apply do_default_holds_only_its_result with (o := o) in Hd; [|done].
      rewrite Hd. simpl. lia.
Qed.

End References.

(** ** The post-setattr hook *)

Section PostSetattr.
Context {W : Type} {HH : Host W}.

Lemma for_each_decref_then {A} (args : list PyObj) (x : A) (h : Heap W) :
  (for_each Py_DECREF args;;; ret x) h
  = (map EvDecref args, final (for_each Py_DECREF args h), Ret x).
Proof.
  rewrite (bind_ret_run _ _ _ _ _ tt (for_each_decref_run args _)).
  unfold ret, logged, final, result. simpl. by rewrite app_nil_r.
Qed.

(** Every way [do_post_setattr] can end short of undefined behaviour. *)
Lemma do_post_setattr_log m a n old val (h : Heap W) l h' z pend :
  do_post_setattr m a n old val h = (l, h', Ret (z, pend)) ->
  let args := [member_ob m; a; n; old; val] in
  (post_setattr_handler m = None
   /\ l = [] /\ h' = h /\ z = 0%Z /\ pend = None)
  \/ exists f, post_setattr_handler m = Some f
     /\ ((PyTuple_New 5 h = false
          /\ l = [] /\ h' = h /\ z = 0%Z /\ pend = Some MemoryError)
         \/ (exists res,
               l = map EvIncref args ++ EvCall f args (Ret res)
                     :: EvDecref res :: map EvDecref args
               /\ z = 0%Z /\ pend = None)
         \/ (exists e,
               l = map EvIncref args ++ EvCall f args (Raise e)
                     :: map EvDecref args
               /\ z = (-1)%Z /\ pend = Some e)).
Proof.
  intros Hrun args. revert Hrun. unfold do_post_setattr.
  destruct (post_setattr_handler m) as [f|].
  - intros Hrun. right. exists f. split; [done|]. revert Hrun.
    fold args. unfold tuple_new. unfold bind at 1.
    change (length args) with 5.
    destruct (PyTuple_New 5 h).
    + unfold bind at 1. rewrite for_each_incref_run.
      set (h1 := final (for_each Py_INCREF args h)).
      unfold bind at 1. unfold attempt, call.
      destruct (PyObject_Call f args h1) as [h2 r2].
      destruct r2 as [res|e|]; [| |discriminate].
      * unfold bind at 1. unfold Py_DECREF at 1.
        rewrite for_each_decref_then.
        intros [= <- <- <- <-]. right. left. exists res. done.
      * rewrite for_each_decref_then.
        intros [= <- <- <- <-]. right. right. exists e. done.
    + unfold ret. intros [= <- <- <- <-]. left. done.
  - unfold ret. intros [= <- <- <- <-]. left. done.
Qed.

(** X3.  [do_post_setattr] returns -1 exactly when the handler was called
    and raised, and then the handler's error is pending.  In every other
    case it returns 0 -- also when the argument tuple could not be
    allocated: then no call is made, nothing changes, and 0 is returned
    with [MemoryError] pending.  The handler, when called, receives
    (member, atom, name, old, val). *)
Theorem do_post_setattr_outcomes m a n old val (h : Heap W) l h' z pend :
  do_post_setattr m a n old val h = (l, h', Ret (z, pend)) ->
  let args := [member_ob m; a; n; old; val] in
  (z = 0%Z /\ pend = None
   /\ exists out, calls_of l = handler_call (post_setattr_handler m) args out)
  \/ (z = (-1)%Z
      /\ exists f e, post_setattr_handler m = Some f /\ pend = Some e
           /\ calls_of l = [EvCall f args (Raise e)])
  \/ (z = 0%Z /\ pend = Some MemoryError /\ l = [] /\ h' = h
      /\ PyTuple_New 5 h = false
      /\ exists f, post_setattr_handler m = Some f).
Proof.
  intros Hrun args.
  destruct (do_post_setattr_log m a n old val h l h' z pend Hrun)
    as [(Hnone & -> & -> & -> & ->)
       |(f & Hf & [(Hno & -> & -> & -> & ->)
                  |[(res & -> & -> & ->)|(e & -> & -> & ->)]])].
  - left. rewrite Hnone. split; [done|split; [done|]]. by exists 0.
  - right. right. eauto 10.
  - left. split; [done|split; [done|]]. exists res. rewrite Hf.
    rewrite calls_of_app, calls_of_increfs. simpl.
    by rewrite ?calls_of_decrefs.
  - right. left. split; [done|]. exists f, e. split; [done|split; [done|]].
    rewrite calls_of_app, calls_of_increfs. simpl.
    by rewrite ?calls_of_decrefs.
Qed.

(** X4.  [do_post_setattr] keeps no reference: the answer of the handler
    is released at once, and the references the argument tuple took are
    given back, whether the handler answered or raised. *)
Theorem do_post_setattr_keeps_no_reference
    o m a n old val (h : Heap W) l h' z pend :
  do_post_setattr m a n old val h = (l, h', Ret (z, pend)) ->
  held o l = 0%Z.
Proof.
  intros Hrun.
  destruct (do_post_setattr_log m a n old val h l h' z pend Hrun)
    as [(_ & -> & _)
       |(f & _ & [(_ & -> & _)|[(res & -> & _)|(e & -> & _)]])];
    [done|done| |].
  - rewrite held_app.
    change (EvCall f [member_ob m; a; n; old; val] (Ret res)
              :: EvDecref res :: map EvDecref [member_ob m; a; n; old; val])
      with ([EvCall f [member_ob m; a; n; old; val] (Ret res)]
              ++ [EvDecref res] ++ map EvDecref [member_ob m; a; n; old; val]).
    rewrite !held_app, held_call, held_decref.
    pose proof (held_tuple o [member_ob m; a; n; old; val]).
    simpl returns. lia.
  - rewrite held_app.
    change (EvCall f [member_ob m; a; n; old; val] (Raise e)
              :: map EvDecref [member_ob m; a; n; old; val])
      with ([EvCall f [member_ob m; a; n; old; val] (Raise e)]
              ++ map EvDecref [member_ob m; a; n; old; val]).
    rewrite !held_app, held_call.
    pose proof (held_tuple o [member_ob m; a; n; old; val]).
    simpl returns. simpl indicator. lia.
Qed.

End PostSetattr.

(** ** Failing default production *)

Section Failure.
Context {W : Type} {HH : Host W}.

Lemma call_handler_raise f args res (h : Heap W) l h' e :
  call_handler f args res h = (l, h', Raise e) ->
  failed_call (Some f) args e (calls_of l).
Proof.
  intros Hrun. exists f. split; [done|].
  apply call_handler_inv in Hrun as [Hl|[Hl [= ->]]]; auto.
Qed.

Lemma stage_raise handler pre res (h : Heap W) l h' e :
  stage handler pre res h = (l, h', Raise e) ->
  failed_call handler (pre ++ [res]) e (calls_of l).
Proof.
  destruct handler as [f|]; simpl.
  - apply call_handler_raise.
  - discriminate.
Qed.

Lemma do_validate_raise m a n old val (h : Heap W) l h' e :
  do_validate m a n old val h = (l, h', Raise e) ->
  let pre := [member_ob m; a; n; old] in
  failed_call (validate_handler m) (pre ++ [val]) e (calls_of l)
  \/ exists v1 tail,
       calls_of l = stage_call (validate_handler m) pre val v1 ++ tail
       /\ (validate_handler m = None -> v1 = val)
       /\ failed_call (post_validate_handler m) (pre ++ [v1]) e tail.
Proof.
  intros Hrun pre. unfold do_validate in Hrun.
  apply bind_inv in Hrun
    as [(l0 & h0 & [] & l1 & Hinc & Hrun & ->)|[(e0 & [=] & _)|[[=] _]]].
  injection Hinc as <- <-.
  apply bind_inv in Hrun
    as [(l2 & h2 & v1 & l3 & Hs1 & Hs2 & ->)|[(e0 & Hs1 & [= <-])|[_ [=]]]].
  - right. apply stage_ret in Hs1 as [Hc1 Hv1]. apply stage_raise in Hs2.
    exists v1, (calls_of l3). rewrite !calls_of_app, Hc1. simpl. auto.
  - left. apply stage_raise in Hs1. rewrite calls_of_app. exact Hs1.
Qed.

(** X5.  When default production raises [e], the calls it made are an
    initial part of default, validate, post-validate: every stage before
    the failing one answered, the failing stage either made the call that
    raised [e] or could not allocate its argument tuple ([e] is then
    [MemoryError]), and no later handler was called. *)
Theorem do_default_stops_at_first_failure m a n (h : Heap W) l h' e :
  do_default m a n h = (l, h', Raise e) ->
  let dargs := [member_ob m; a; n] in
  let pre := [member_ob m; a; n; NullObject] in
  failed_call (default_handler m) dargs e (calls_of l)
  \/ (exists c tail,
        calls_of l = handler_call (default_handler m) dargs c ++ tail
        /\ (default_handler m = None -> c = Py_None)
        /\ failed_call (validate_handler m) (pre ++ [c]) e tail)
  \/ (exists c v1 tail,
        calls_of l = handler_call (default_handler m) dargs c
                     ++ stage_call (validate_handler m) pre c v1 ++ tail
        /\ (default_handler m = None -> c = Py_None)
        /\ (validate_handler m = None -> v1 = c)
        /\ failed_call (post_validate_handler m) (pre ++ [v1]) e tail).
Proof.
  intros Hrun dargs pre. unfold do_default in Hrun.
  apply bind_inv in Hrun
    as [(l0 & h0 & [] & l1 & Hinc & Hrun & ->)|[(e0 & [=] & _)|[[=] _]]].
  injection Hinc as <- <-.
  apply bind_inv in Hrun
    as [(l2 & h2 & c & l3 & Hd & Hrun & ->)|[(e0 & Hd & [= <-])|[_ [=]]]].
  - assert (calls_of l2 = handler_call (default_handler m) dargs c
            /\ (default_handler m = None -> c = Py_None)) as [Hc Hnone].
    { destruct (default_handler m) as [f|].
      - split; [|discriminate]. by apply call_handler_ret in Hd.
      - injection Hd as <- _ <-. auto. }
    apply bind_inv in Hrun
      as [(l4 & h4 & rv & l5 & Hv & Hrun & ->)|[(e0 & Hv & _)|[_ [=]]]].
    + apply attempt_inv in Hv as [Hv _].
      apply bind_inv in Hrun
        as [(l6 & h6 & [] & l7 & Hdec & Hrun & ->)|[(e0 & [=] & _)|[[=] _]]].
      injection Hdec as <- <-. unfold lift in Hrun.
      injection Hrun as <- <- ->.
      apply do_validate_raise in Hv as [Hfail|(v1 & tail & Hcv & Hv1 & Hfail)].
      * right. left. exists c, (calls_of l4).
        rewrite !calls_of_app, Hc. simpl. rewrite app_nil_r. auto.
      * right. right. exists c, v1, tail.
        rewrite !calls_of_app, Hc, Hcv. simpl. rewrite app_nil_r. auto.
    + unfold attempt in Hv.
      destruct (do_validate m a n NullObject c h2) as [[? ?] [?|?|]];
        discriminate.
  - left. rewrite calls_of_app. simpl.
    destruct (default_handler m) as [f|]; [|discriminate].
    by apply call_handler_raise in Hd.
Qed.

End Failure.

(** ** The layout invariant *)

Section Layout.
Context {W : Type} {HH : Host W}.

Lemma keeps_same {A} (m : M W A) :
  (forall h, final (m h) = h) -> keeps same_shape m.
Proof. intros Hm h. rewrite Hm. reflexivity. Qed.

Lemma read_slot_final i (h : Heap W) : final (read_slot i h) = h.
Proof. unfold read_slot. by destruct (slots h !! i). Qed.

Lemma lookup_member_final map name (h : Heap W) :
  final (ClassMap_LookupMember map name h) = h.
Proof. by destruct map. Qed.

Lemma write_slot_shape i v : keeps (W:=W) same_shape (write_slot i v).
Proof.
  intros h. unfold write_slot.
  destruct (decide (i < length (slots h))); [|reflexivity].
  split; [reflexivity|]. unfold final. simpl. apply length_insert.
Qed.

Lemma incref_shape o : keeps (W:=W) same_shape (Py_INCREF o).
Proof. intros h. split; reflexivity. Qed.

Section WithHost.
Hypothesis call_shape :
  forall f args h0, same_shape h0 (fst (PyObject_Call f args h0)).
Hypothesis get_shape :
  forall s n h0, same_shape h0 (fst (PyObject_GenericGetAttr s n h0)).
Hypothesis set_shape :
  forall s n v h0, same_shape h0 (fst (PyObject_GenericSetAttr s n v h0)).

Lemma getattro_shape self name : keeps same_shape (Atom_getattro self name).
Proof.
  unfold Atom_getattro.
  refine (keeps_bind same_shape _ _ _ _); [by apply keeps_same|].
  intros map. refine (keeps_bind same_shape _ _ _ _).
  { apply keeps_same, lookup_member_final. }
  intros [[m i]|].
  - refine (keeps_bind same_shape _ _ _ _).
    { apply keeps_same, read_slot_final. }
    intros [v|].
    + refine (keeps_bind same_shape _ _ _ _); [apply incref_shape|].
      intros _. apply keeps_ret, _.
    + unfold fill_slot. refine (keeps_bind same_shape _ _ _ _).
      { intros h. by apply do_default_same_shape. }
      intros v. refine (keeps_bind same_shape _ _ _ _);
        [apply write_slot_shape|].
      intros _. refine (keeps_bind same_shape _ _ _ _);
        [apply incref_shape|].
      intros _. apply keeps_ret, _.
  - intros h. unfold final. specialize (get_shape self name h).
    by destruct (PyObject_GenericGetAttr self name h).
Qed.

Lemma setattro_shape self name value :
  keeps same_shape (Atom_setattro self name value).
Proof.
  unfold Atom_setattro.
  refine (keeps_bind same_shape _ _ _ _); [by apply keeps_same|].
  intros map. refine (keeps_bind same_shape _ _ _ _).
  { apply keeps_same, lookup_member_final. }
  intros [[m i]|].
  - refine (keeps_bind same_shape _ _ _ _).
    { destruct value; [apply incref_shape|apply keeps_ret, _]. }
    intros _. refine (keeps_bind same_shape _ _ _ _);
      [apply write_slot_shape|].
    intros _. apply keeps_ret, _.
  - intros h. unfold final. specialize (set_shape self name value h).
    by destruct (PyObject_GenericSetAttr self name value h).
Qed.

Lemma init_kwargs_shape self kw : keeps same_shape (init_kwargs self kw).
Proof.
  induction kw as [|[key value] rest IH]; simpl.
  - apply keeps_ret, _.
  - refine (keeps_bind same_shape _ _ _ _); [apply setattro_shape|].
    intros r. destruct (decide (r < 0)%Z); [apply keeps_ret, _|done].
Qed.

Lemma same_shape_ok (h h' : Heap W) : same_shape h h' -> atom_ok h -> atom_ok h'.
Proof.
  intros [Hc Hl] (cm & Hcm & Hlen). exists cm. split; congruence.
Qed.

(** X6.  With an interpreter whose callables and generic attribute store
    do not resize the slot array or swap the class map, reading,
    writing, deleting and initialising keep the layout [Atom_new]
    established: the same class map and as many slots as it has members,
    whatever the outcome of the operation. *)
Theorem layout_is_kept self name value args kwargs (h : Heap W) :
  atom_ok h ->
  atom_ok (final (Atom_getattro self name h))
  /\ atom_ok (final (Atom_setattro self name value h))
  /\ atom_ok (final (Atom_init self args kwargs h)).
Proof.
  intros Hok. split; [|split].
  - eapply same_shape_ok; [apply getattro_shape|done].
  - eapply same_shape_ok; [apply setattro_shape|done].
  - eapply same_shape_ok; [|done]. unfold Atom_init.
    destruct (decide (0 < length args)); [reflexivity|].
    destruct kwargs as [kw|]; [apply init_kwargs_shape|reflexivity].
Qed.

End WithHost.

(** X7.  Writing or deleting one member leaves every other slot as it
    was, changes the count of no object but the value written, and a
    member with another slot that held a value still reads as that
    value. *)
Theorem write_leaves_other_members self name value (h : Heap W) cm m i :
  class_map h = Some cm -> members cm name = Some (m, i) ->
  i < length (slots h) ->
  let written := final (Atom_setattro self name value h) in
  (forall j, j <> i -> slots written !! j = slots h !! j)
  /\ (forall o, value <> Some o -> ob_refcnt written o = ob_refcnt h o)
  /\ (forall name' m' j w,
        members cm name' = Some (m', j) -> j <> i ->
        slots h !! j = Some (Some w) ->
        result (Atom_getattro self name' written) = Ret w
        /\ calls_of (logged (Atom_getattro self name' written)) = []).
Proof.
  intros Hcm Hm Hi written.
  assert (written
          = set_slots (<[i := value]> (slots h))
              (match value with Some v => incref v h | None => h end))
    as Hw.
  { unfold written. by rewrite (setattro_member self name value h cm m i). }
  assert (forall j, j <> i -> slots written !! j = slots h !! j) as Hother.
  { intros j Hj. rewrite Hw. destruct value; simpl;
      by apply list_lookup_insert_ne. }
  split; [done|split].
  - intros o Ho. rewrite Hw. destruct value as [v|]; simpl; [|done].
    apply fn_lookup_insert_ne. congruence.
  - intros name' m' j w Hm' Hj Hs.
    rewrite (getattro_present self name' written cm m' j w); [done| |done|].
    + rewrite Hw. by destruct value.
    + by rewrite Hother.
Qed.

End Layout.

(** ** Initialising members *)

Section InitMembers.
Context {W : Type} {HH : Host W}.

Lemma init_members_run self cm kw : forall h : Heap W,
  class_map h = Some cm ->
  Forall (fun kv => exists m i,
            members cm (fst kv) = Some (m, i) /\ i < length (slots h)) kw ->
  exists h',
    init_kwargs self kw h = (map (fun kv => EvIncref (snd kv)) kw, h', Ret 0%Z)
    /\ class_map h' = Some cm
    /\ length (slots h') = length (slots h)
    /\ (forall j, Forall (fun kv => index_of cm (fst kv) <> Some j) kw ->
          slots h' !! j = slots h !! j)
    /\ (forall pre k v post m i,
          kw = pre ++ (k, v) :: post -> members cm k = Some (m, i) ->
          Forall (fun kv => index_of cm (fst kv) <> Some i) post ->
          slots h' !! i = Some (Some v)).
Proof.
  induction kw as [|[k0 v0] rest IH]; intros h Hcm Hall.
  - exists h. split; [reflexivity|]. split; [done|]. split; [done|].
    split; [done|]. intros [|??] ?????; discriminate.
  - apply Forall_cons_1 in Hall as [(m0 & i0 & Hm0 & Hi0) Hrest].
    simpl in Hm0.
    pose proof (setattro_member self k0 (Some v0) h cm m0 i0 Hcm Hm0 Hi0)
      as Hset.
    set (h1 := set_slots (<[i0 := Some v0]> (slots h)) (incref v0 h)) in Hset.
    destruct (IH h1) as (h' & Hrun & Hcm' & Hlen & Hframe & Hlast).
    { exact Hcm. }
    { eapply List.Forall_impl; [|exact Hrest].
      intros kv (m & i & Hm & Hi). exists m, i. split; [done|].
      unfold h1. simpl. by rewrite length_insert. }
    exists h'.
    rewrite (init_kwargs_cons self k0 v0 rest h _ _ 0%Z Hset) by lia.
    rewrite Hrun. unfold logged, final, result. simpl.
    split; [done|]. split; [done|].
    split; [by rewrite Hlen; unfold h1; simpl; rewrite length_insert|].
    split.
    + intros j Hj. apply Forall_cons_1 in Hj as [Hj0 Hj].
      rewrite (Hframe j Hj). unfold h1. simpl.
      apply list_lookup_insert_ne. intros ->.
      apply Hj0. unfold index_of. simpl. by rewrite Hm0.
    + intros pre k v post m i Hkw Hm Hpost.
      destruct pre as [|p pre]; simpl in Hkw.
      * injection Hkw as Hk Hv Hr. subst k v post.
        assert (i = i0) as -> by congruence.
        rewrite (Hframe i0 Hpost). unfold h1. simpl.
        by apply list_lookup_insert_eq.
      * injection Hkw as _ Hr. by eapply (Hlast pre k v post m i).
Qed.

(** X8.  Initialising from a mapping whose names are all members cannot
    fail and calls no handler: it returns 0, takes one reference per
    pair, in the order of the mapping, and gives none up; each slot ends
    up holding the value of the last pair that names it, and slots no
    pair names are untouched. *)
Theorem init_members_never_fails self cm kw (h : Heap W) :
  class_map h = Some cm ->
  Forall (fun kv => exists m i,
            members cm (fst kv) = Some (m, i) /\ i < length (slots h)) kw ->
  let run := Atom_init self [] (Some kw) h in
  result run = Ret 0%Z
  /\ logged run = map (fun kv => EvIncref (snd kv)) kw
  /\ calls_of (logged run) = []
  /\ (forall j, Forall (fun kv => index_of cm (fst kv) <> Some j) kw ->
        slots (final run) !! j = slots h !! j)
  /\ (forall pre k v post m i,
        kw = pre ++ (k, v) :: post -> members cm k = Some (m, i) ->
        Forall (fun kv => index_of cm (fst kv) <> Some i) post ->
        slots (final run) !! i = Some (Some v)).
Proof.
  intros Hcm Hall run.
  destruct (init_members_run self cm kw h Hcm Hall)
    as (h' & Hrun & _ & _ & Hframe & Hlast).
  assert (run = (map (fun kv => EvIncref (snd kv)) kw, h', Ret 0%Z)) as ->.
  { unfold run, Atom_init. simpl. exact Hrun. }
  unfold result, logged, final. simpl.
  split; [done|]. split; [done|]. split; [|done].
  clear. induction kw; simpl; auto.
Qed.

End InitMembers.

(** ** Traversal with a visitor that refuses *)

Section Refusal.
Context {W : Type} {HH : Host W} {CH : ClassMapHeader}.
Variable visit : visitproc W.

(** X10.  When the visitor answers something other than 0 at a referent,
    [Atom_traverse] stops there: the referents before it were shown, the
    ones after it are not, and the visitor's answer is returned; the
    instance and the reference counts are as before. *)
Theorem traverse_stops_at_first_refusal (h : Heap W) cm xs o ys vret :
  class_map h = Some cm -> length (slots h) = member_count cm ->
  referents h = xs ++ o :: ys ->
  (forall x w0, In x xs -> snd (visit x w0) = 0%Z) ->
  (forall w0, snd (visit o w0) = vret) -> vret <> 0%Z ->
  logged (Atom_traverse visit h)
  = map (fun x => EvVisit x 0%Z) xs ++ [EvVisit o vret]
  /\ result (Atom_traverse visit h) = Ret vret
  /\ same_atom h (final (Atom_traverse visit h))
  /\ ob_refcnt (final (Atom_traverse visit h)) = ob_refcnt h.
Proof.
  intros Hcm Hlen Hrefs Hzero Hrefuse Hne.
  rewrite (Atom_traverse_run visit h cm) by done.
  rewrite Hrefs, visit_list_app.
  destruct (visit_list_zero visit xs (host h) Hzero) as [Hl Hr].
  destruct (visit_list visit xs (host h)) as [[l1 w1] r1].
  simpl in Hl, Hr. subst l1 r1. simpl.
  specialize (Hrefuse w1). destruct (visit o w1) as [w2 r2].
  simpl in Hrefuse. subst r2.
  destruct (decide (vret = 0%Z)); [done|].
  unfold logged, result, final, same_atom. simpl. done.
Qed.

End Refusal.

(** ** Construction and destruction *)

Section LifetimeFacts.
Context {W : Type} {HH : Host W} {CH : ClassMapHeader} {RT : Runtime W}.

Lemma slots_in_memsize count :
  (0 < sizeof_ptr)%Z ->
  (sizeof_ptr * Z.of_nat count < 2 ^ (8 * sizeof_ptr))%Z ->
  slots_in (slot_memsize count) = count.
Proof.
  intros Hptr Hfit. unfold slots_in, slot_memsize.
  rewrite Z.mod_small by lia.
  rewrite Z.mul_comm, Z.div_mul by lia. apply Nat2Z.id.
Qed.

(** [Atom_new] up to the point where the new object exists. *)
Lemma Atom_new_made type cm (h : Heap W) w self :
  PyType_GenericNew type (host h) = (w, Ret self) ->
  Atom_new type (Some (IsClassMap cm)) h
  = match
      (count <- ClassMap_MemberCount (Some cm);;
       if decide (0 < count) then
         let memsize := slot_memsize count in
         ok <- malloc memsize;;
         if ok : bool then
           write_slots (replicate (slots_in memsize) None);;;
           write_class_map (Some cm);;;
           ret self
         else
           Py_DECREF_instance self;;;
           Py_DECREF (class_map_ob cm);;;
           raise MemoryError
       else
         write_class_map (Some cm);;;
         ret self)
        (mkHeap [] None
           (<[self := 1%Z]> (ob_refcnt (incref (class_map_ob cm) h))) w)
    with
    | (l, h', r) => (EvIncref (class_map_ob cm) :: l, h', r)
    end.
Proof.
  intros Hnew. unfold Atom_new, lookup_class_map.
  unfold bind at 1. unfold bind at 1. unfold Py_INCREF at 1. simpl.
  unfold bind at 1. unfold attempt, generic_new. simpl. rewrite Hnew.
  match goal with
  | |- _ = (let (p, r) := ?x in _) => destruct x as [[l2 h2] r2]
  end.
  reflexivity.
Qed.

(** With 8-byte pointers the byte count of a slot array fits [size_t]
    for every 32-bit member count. *)
Lemma slot_array_fits count :
  sizeof_ptr = 8%Z -> (Z.of_nat count < 2 ^ 32)%Z ->
  (sizeof_ptr * Z.of_nat count < 2 ^ (8 * sizeof_ptr))%Z.
Proof.
  intros -> Hcount.
  change (2 ^ (8 * 8))%Z with 18446744073709551616%Z.
  change (2 ^ 32)%Z with 4294967296%Z in Hcount. lia.
Qed.

(** The successful run of [Atom_new]. *)
Lemma Atom_new_run type cm (h : Heap W) w self :
  PyType_GenericNew type (host h) = (w, Ret self) ->
  (0 < member_count cm ->
   snd (PyObject_Malloc (slot_memsize (member_count cm)) w) = true) ->
  (0 < sizeof_ptr)%Z ->
  (sizeof_ptr * Z.of_nat (member_count cm) < 2 ^ (8 * sizeof_ptr))%Z ->
  exists w',
    Atom_new type (Some (IsClassMap cm)) h
    = ([EvIncref (class_map_ob cm)],
       mkHeap (replicate (member_count cm) None) (Some cm)
         (<[self := 1%Z]>
            (<[class_map_ob cm := (ob_refcnt h (class_map_ob cm) + 1)%Z]>
               (ob_refcnt h))) w',
       Ret self).
Proof.
  intros Hnew Hmalloc Hptr Hfit.
  rewrite (Atom_new_made type cm h w self Hnew).
  unfold bind at 1. simpl.
  destruct (decide (0 < member_count cm)) as [Hpos|Hzero].
  - specialize (Hmalloc Hpos). unfold bind at 1, malloc. simpl.
    destruct (PyObject_Malloc (slot_memsize (member_count cm)) w)
      as [w' ok]. simpl in Hmalloc. subst ok.
    exists w'. unfold bind, write_slots, write_class_map, ret. simpl.
    by rewrite slots_in_memsize.
  - exists w. unfold bind, write_class_map, ret. simpl.
    replace (member_count cm) with 0 by lia. reflexivity.
Qed.

Lemma present_replicate_None n : present (replicate n (@None PyObj)) = [].
Proof. induction n; simpl; auto. Qed.

(** X11.  When the type's dictionary holds a class map and both
    allocations succeed, [Atom_new] returns the new object with as many
    slots as the class map has members, every one NULL, and the class map
    attached; the class map has gained one reference and the new object
    has one.  The byte count of the slot array must fit [size_t], which it
    does with 8-byte pointers and a 32-bit member count. *)
Theorem Atom_new_fresh_instance type cm (h : Heap W) w self :
  PyType_GenericNew type (host h) = (w, Ret self) ->
  (0 < member_count cm ->
   snd (PyObject_Malloc (slot_memsize (member_count cm)) w) = true) ->
  (0 < sizeof_ptr)%Z ->
  (sizeof_ptr * Z.of_nat (member_count cm) < 2 ^ (8 * sizeof_ptr))%Z ->
  let run := Atom_new type (Some (IsClassMap cm)) h in
  result run = Ret self
  /\ logged run = [EvIncref (class_map_ob cm)]
  /\ slots (final run) = replicate (member_count cm) None
  /\ class_map (final run) = Some cm
  /\ atom_ok (final run)
  /\ ob_refcnt (final run)
     = <[self := 1%Z]>
         (<[class_map_ob cm := (ob_refcnt h (class_map_ob cm) + 1)%Z]>
            (ob_refcnt h)).
Proof.
  intros Hnew Hmalloc Hptr Hfit run.
  destruct (Atom_new_run type cm h w self Hnew Hmalloc Hptr Hfit)
    as [w' Hrun].
  unfold run. rewrite Hrun. unfold result, logged, final. simpl.
  split; [done|]. split; [done|]. split; [done|]. split; [done|].
  split; [|done]. exists cm. split; [done|]. simpl. apply length_replicate.
Qed.

(** X12.  A construction that fails before the slot array is requested
    leaves nothing behind.  Without a class map in the type's dictionary,
    or with an entry of another type, [Atom_new] raises [SystemError] and
    the heap is untouched; when the object cannot be allocated the
    allocator's error is raised, the reference taken to the class map has
    been given up again, and no count and no instance field has
    changed. *)
Theorem Atom_new_failure_leaves_nothing type (h : Heap W) :
  Atom_new type None h
  = ([], h, Raise (SystemError "atom type has no class map"))
  /\ (forall o,
        Atom_new type (Some (NotClassMap o)) h
        = ([], h, Raise (SystemError "class map has invalid type")))
  /\ (forall cm w e,
        PyType_GenericNew type (host h) = (w, Raise e) ->
        let run := Atom_new type (Some (IsClassMap cm)) h in
        result run = Raise e
        /\ logged run
           = [EvIncref (class_map_ob cm); EvDecref (class_map_ob cm)]
        /\ same_atom h (final run)
        /\ (forall o, ob_refcnt (final run) o = ob_refcnt h o)).
Proof.
  split; [reflexivity|]. split; [reflexivity|].
  intros cm w e Hnew run.
  assert (run
          = ([EvIncref (class_map_ob cm); EvDecref (class_map_ob cm)],
             decref (class_map_ob cm)
               (set_host w (incref (class_map_ob cm) h)),
             Raise e)) as ->.
  { unfold run, Atom_new, lookup_class_map.
    unfold bind at 1. unfold bind at 1. unfold Py_INCREF at 1. simpl.
    unfold bind at 1. unfold attempt, generic_new. simpl. rewrite Hnew.
    reflexivity. }
  unfold result, logged, final, same_atom. simpl.
  split; [done|]. split; [done|]. split; [done|].
  intros o. destruct (decide (class_map_ob cm = o)) as [->|Hne].
  - rewrite !fn_lookup_insert. lia.
  - by rewrite !fn_lookup_insert_ne.
Qed.

(** Dropping the last reference to the instance destroys it. *)
Lemma Py_DECREF_instance_last self (h : Heap W) :
  ob_refcnt h self = 1%Z ->
  Py_DECREF_instance self h
  = match Atom_dealloc self (decref self h) with
    | (l, h', r) => (EvDecref self :: l, h', r)
    end.
Proof.
  intros Hone. unfold Py_DECREF_instance, bind, Py_DECREF. simpl.
  rewrite fn_lookup_insert, Hone.
  destruct (decide ((1 - 1)%Z = 0%Z)) as [_|Hne];
    [|exfalso; apply Hne; reflexivity].
  by destruct (Atom_dealloc self (decref self h)) as [[l h'] r].
Qed.

(** Destroying an instance whose class map and slots are all NULL:
    nothing is released; whether the call completes is up to the count
    [ClassMap_MemberCount] answers for NULL. *)
Lemma Atom_dealloc_null self k (h : Heap W) :
  class_map h = None -> slots h = replicate k None ->
  Atom_dealloc self h
  = match MemberCount_of_NULL with
    | Some n =>
        if decide (n <= k)
        then ([], mkHeap [] None (ob_refcnt h)
                    (tp_free self
                       (PyObject_Free (PyObject_GC_UnTrack self (host h)))),
              Ret tt)
        else ([], set_host (PyObject_GC_UnTrack self (host h)) h, Fault)
    | None => ([], set_host (PyObject_GC_UnTrack self (host h)) h, Fault)
    end.
Proof.
  intros Hcm Hs. unfold Atom_dealloc.
  unfold bind at 1. unfold host_step at 1.
  unfold bind at 1.
  rewrite (Atom_clear_null k (set_host (PyObject_GC_UnTrack self (host h)) h))
    by done.
  destruct MemberCount_of_NULL as [n|]; [|done].
  destruct (decide (n <= k)); [|done].
  unfold bind, host_step, write_slots, set_host, set_slots. simpl.
  by rewrite Hcm.
Qed.

(** X13.  When the object was allocated but the slot array cannot be,
    [Atom_new] lets go of the half-built instance.  That was its last
    reference, so [Atom_dealloc] runs while the class-map pointer and the
    slot array are still NULL, and [Atom_clear] asks
    [ClassMap_MemberCount] for the member count of NULL.  When the answer
    is 0 the call returns with [MemoryError], the reference taken to the
    class map has been given up again and no other object's count has
    changed; with any other answer, or none, the call is undefined and the
    reference to the class map is still held. *)
Theorem Atom_new_slot_allocation_failure type cm (h : Heap W) w self :
  PyType_GenericNew type (host h) = (w, Ret self) ->
  0 < member_count cm ->
  snd (PyObject_Malloc (slot_memsize (member_count cm)) w) = false ->
  let run := Atom_new type (Some (IsClassMap cm)) h in
  class_map (final run) = None
  /\ (null_count_within 0 ->
      result run = Raise MemoryError
      /\ logged run
         = [EvIncref (class_map_ob cm); EvDecref self;
            EvDecref (class_map_ob cm)]
      /\ slots (final run) = []
      /\ (forall o, o <> self -> ob_refcnt (final run) o = ob_refcnt h o))
  /\ (~ null_count_within 0 ->
      result run = Fault
      /\ logged run = [EvIncref (class_map_ob cm); EvDecref self]).
Proof.
  intros Hnew Hpos Hmalloc run.
  assert (exists w',
    run
    = match Atom_dealloc self
              (decref self
                 (mkHeap [] None
                    (<[self := 1%Z]>
                       (<[class_map_ob cm :=
                            (ob_refcnt h (class_map_ob cm) + 1)%Z]>
                          (ob_refcnt h))) w')) with
      | (l, hd, Ret _) =>
          (EvIncref (class_map_ob cm) :: EvDecref self :: l
             ++ [EvDecref (class_map_ob cm)],
           decref (class_map_ob cm) hd, Raise MemoryError)
      | (l, hd, Raise e) =>
          (EvIncref (class_map_ob cm) :: EvDecref self :: l, hd, Raise e)
      | (l, hd, Fault) =>
          (EvIncref (class_map_ob cm) :: EvDecref self :: l, hd, Fault)
      end) as (w' & ->).
  { unfold run. rewrite (Atom_new_made type cm h w self Hnew).
    unfold bind at 1. simpl.
    destruct (decide (0 < member_count cm)) as [_|]; [|done].
    unfold bind at 1, malloc. simpl.
    destruct (PyObject_Malloc (slot_memsize (member_count cm)) w) as [w' ok].
    simpl in Hmalloc. subst ok. exists w'.
    unfold bind at 1.
    rewrite Py_DECREF_instance_last by (simpl; apply fn_lookup_insert).
    unfold set_host at 1. simpl.
    by destruct (Atom_dealloc self _) as [[l hd] [[]|e|]]. }
  rewrite (Atom_dealloc_null self 0) by reflexivity.
  unfold null_count_within.
  destruct MemberCount_of_NULL as [n|].
  - destruct (decide (n <= 0)) as [Hn|Hn].
    + unfold result, logged, final. simpl.
      split; [done|split; [|intros Hno; exfalso; apply Hno; eauto]].
      intros _. split; [done|split; [done|split; [done|]]].
      intros o Ho. destruct (decide (class_map_ob cm = o)) as [->|Hne].
      * rewrite fn_lookup_insert, !fn_lookup_insert_ne by done.
        rewrite fn_lookup_insert. lia.
      * by rewrite !fn_lookup_insert_ne.
    + unfold result, logged, final. simpl.
      split; [done|split; [|done]].
      intros (n' & [= <-] & Hle). lia.
  - unfold result, logged, final. simpl.
    split; [done|split; [|done]].
    by intros (n' & [=] & _).
Qed.

(** What [Atom_dealloc] does to a live instance. *)
Lemma Atom_dealloc_run self (h : Heap W) cm :
  class_map h = Some cm -> length (slots h) = member_count cm ->
  Atom_dealloc self h
  = (map EvDecref (referents h),
     mkHeap [] None (release_all (referents h) (ob_refcnt h))
       (tp_free self (PyObject_Free (PyObject_GC_UnTrack self (host h)))),
     Ret tt).
Proof.
  intros Hcm Hlen. unfold Atom_dealloc.
  unfold bind at 1. unfold host_step at 1.
  unfold bind at 1.
  rewrite (Atom_clear_run (set_host (PyObject_GC_UnTrack self (host h)) h) cm)
    by done.
  unfold bind, host_step, write_slots. simpl.
  unfold referents. simpl. rewrite !Hcm. simpl.
  by rewrite map_app, !app_nil_r.
Qed.

(** X14.  Destroying a live instance gives up, once each and in this
    order, the values its slots hold at that moment and then the class
    map; it releases nothing else and ends without slots and without
    class map. *)
Theorem Atom_dealloc_releases_referents self (h : Heap W) cm :
  class_map h = Some cm -> length (slots h) = member_count cm ->
  let run := Atom_dealloc self h in
  result run = Ret tt
  /\ logged run
     = map EvDecref (present (slots h)) ++ [EvDecref (class_map_ob cm)]
  /\ ob_refcnt (final run) = release_all (referents h) (ob_refcnt h)
  /\ slots (final run) = []
  /\ class_map (final run) = None.
Proof.
  intros Hcm Hlen run. unfold run.
  rewrite (Atom_dealloc_run self h cm) by done.
  unfold result, logged, final, referents. rewrite Hcm. simpl.
  by rewrite map_app.
Qed.

(** X15.  Construction followed by destruction is neutral: the reference
    [Atom_new] took to the class map is the one [Atom_dealloc] gives up,
    so every object other than the instance itself is counted as
    before. *)
Theorem Atom_new_then_dealloc type cm (h : Heap W) w self :
  PyType_GenericNew type (host h) = (w, Ret self) ->
  (0 < member_count cm ->
   snd (PyObject_Malloc (slot_memsize (member_count cm)) w) = true) ->
  (0 < sizeof_ptr)%Z ->
  (sizeof_ptr * Z.of_nat (member_count cm) < 2 ^ (8 * sizeof_ptr))%Z ->
  let made := Atom_new type (Some (IsClassMap cm)) h in
  let gone := Atom_dealloc self (final made) in
  result gone = Ret tt
  /\ logged made ++ logged gone
     = [EvIncref (class_map_ob cm); EvDecref (class_map_ob cm)]
  /\ (forall o, o <> self -> ob_refcnt (final gone) o = ob_refcnt h o).
Proof.
  intros Hnew Hmalloc Hptr Hfit made gone.
  destruct (Atom_new_run type cm h w self Hnew Hmalloc Hptr Hfit)
    as [w' Hmade].
  fold made in Hmade.
  assert (gone
          = ([EvDecref (class_map_ob cm)],
             mkHeap [] None
               (release_all [class_map_ob cm]
                  (<[self := 1%Z]>
                     (<[class_map_ob cm :=
                          (ob_refcnt h (class_map_ob cm) + 1)%Z]>
                        (ob_refcnt h))))
               (tp_free self (PyObject_Free (PyObject_GC_UnTrack self w'))),
             Ret tt)) as Hgone.
  { unfold gone. rewrite Hmade. unfold final. simpl.
    rewrite (Atom_dealloc_run self _ cm);
      [|reflexivity|simpl; apply length_replicate].
    unfold referents. simpl. rewrite present_replicate_None. reflexivity. }
  rewrite Hgone, Hmade. unfold result, logged, final. simpl.
  split; [done|]. split; [done|].
  intros o Ho. destruct (decide (class_map_ob cm = o)) as [->|Hne].
  - rewrite fn_lookup_insert, fn_lookup_insert_ne by done.
    rewrite fn_lookup_insert. lia.
  - rewrite !fn_lookup_insert_ne by done. reflexivity.
Qed.

(** X16.  Once the collector has cleared an instance, destroying it
    releases nothing a second time: no reference is given up and no count
    changes.  [Atom_clear] asks [ClassMap_MemberCount] for the member
    count of the NULL class map; when the answer stays within the slot
    array the destruction completes and the slot array is freed, otherwise
    the call is undefined before anything is freed. *)
Theorem Atom_dealloc_after_clear self (h : Heap W) cm :
  class_map h = Some cm -> length (slots h) = member_count cm ->
  let run := Atom_dealloc self (final (Atom_clear h)) in
  logged run = []
  /\ ob_refcnt (final run) = ob_refcnt (final (Atom_clear h))
  /\ class_map (final run) = None
  /\ (null_count_within (member_count cm) ->
      result run = Ret tt /\ slots (final run) = [])
  /\ (~ null_count_within (member_count cm) ->
      result run = Fault
      /\ slots (final run) = replicate (member_count cm) None).
Proof.
  intros Hcm Hlen run. unfold run.
  assert (final (Atom_clear h)
          = mkHeap (replicate (member_count cm) None) None
              (release_all (referents h) (ob_refcnt h)) (host h)) as ->
    by (by rewrite (Atom_clear_run h cm)).
  rewrite (Atom_dealloc_null self (member_count cm)) by reflexivity.
  unfold null_count_within.
  destruct MemberCount_of_NULL as [n|].
  - destruct (decide (n <= member_count cm)) as [Hn|Hn].
    + unfold result, logged, final. simpl.
      split; [done|split; [done|split; [done|split; [done|]]]].
      intros Hno. exfalso. apply Hno. eauto.
    + unfold result, logged, final. simpl.
      split; [done|split; [done|split; [done|split; [|done]]]].
      intros (n' & [= <-] & Hle). lia.
  - unfold result, logged, final. simpl.
    split; [done|split; [done|split; [done|split; [|done]]]].
    by intros (n' & [=] & _).
Qed.

End LifetimeFacts.

(** ** What the instance owns over its lifetime *)

Section Ownership.
Context {W : Type} {HH : Host W} {CH : ClassMapHeader} {RT : Runtime W}.

Lemma held_decrefs_absent o xs : ~ In o xs -> held o (map EvDecref xs) = 0%Z.
Proof.
  induction xs as [|x xs IH]; simpl; [done|]. intros Hnot.
  destruct (decide (x = o)) as [->|_]; [exfalso; auto|].
  rewrite IH; [lia | auto].
Qed.

Lemma present_insert_in o i v (s : list (option PyObj)) :
  In o (present (<[i := Some v]> s)) -> o = v \/ In o (present s).
Proof.
  unfold present. rewrite <- !list_elem_of_In, !list_elem_of_omap.
  intros (x & Hx & Hid). simpl in Hid. subst x.
  apply list_elem_of_lookup in Hx as [j Hj].
  destruct (decide (i = j)) as [->|Hne].
  - destruct (decide (j < length s)) as [Hlt|Hge].
    + rewrite list_lookup_insert_eq in Hj by done. left. congruence.
    + rewrite list_insert_ge in Hj by lia. right.
      exists (Some o). split; [|done]. apply list_elem_of_lookup. eauto.
  - rewrite list_lookup_insert_ne in Hj by done. right.
    exists (Some o). split; [|done]. apply list_elem_of_lookup. eauto.
Qed.

(** X17.  A value that is overwritten is never released.  Write [v] to a
    member, write another value to the same member, then destroy the
    instance: if [v] was not in any slot before and is not the class map,
    the three steps together took one reference to [v] and gave none
    back. *)
Theorem overwritten_value_is_never_released
    self name v v' (h : Heap W) cm m i :
  class_map h = Some cm -> members cm name = Some (m, i) ->
  length (slots h) = member_count cm -> i < length (slots h) ->
  v <> v' -> v <> class_map_ob cm -> ~ In v (present (slots h)) ->
  let first := Atom_setattro self name (Some v) h in
  let second := Atom_setattro self name (Some v') (final first) in
  let gone := Atom_dealloc self (final second) in
  result gone = Ret tt
  /\ slots (final first) !! i = Some (Some v)
  /\ held v (logged first ++ logged second ++ logged gone) = 1%Z.
Proof.
  intros Hcm Hm Hlen Hi Hvv Hvc Hnot first second gone.
  assert (first
          = ([EvIncref v],
             set_slots (<[i := Some v]> (slots h)) (incref v h), Ret 0%Z))
    as Hfirst.
  { unfold first. by rewrite (setattro_member self name (Some v) h cm m i). }
  set (h1 := set_slots (<[i := Some v]> (slots h)) (incref v h)) in Hfirst.
  assert (second
          = ([EvIncref v'],
             set_slots (<[i := Some v']> (slots h1)) (incref v' h1),
             Ret 0%Z)) as Hsecond.
  { unfold second. rewrite Hfirst. unfold final. simpl.
    rewrite (setattro_member self name (Some v') h1 cm m i); [done..|].
    unfold h1. simpl. by rewrite length_insert. }
  set (h2 := set_slots (<[i := Some v']> (slots h1)) (incref v' h1))
    in Hsecond.
  assert (gone
          = (map EvDecref (referents h2),
             mkHeap [] None (release_all (referents h2) (ob_refcnt h2))
               (tp_free self
                  (PyObject_Free (PyObject_GC_UnTrack self (host h2)))),
             Ret tt)) as Hgone.
  { unfold gone. rewrite Hsecond. unfold final. simpl.
    apply (Atom_dealloc_run self h2 cm); [done|].
    unfold h2, h1. simpl. by rewrite !length_insert. }
  rewrite Hgone, Hsecond, Hfirst. unfold result, logged, final. simpl fst.
  simpl snd. split; [done|]. split.
  { unfold h1. simpl. by apply list_lookup_insert_eq. }
  rewrite !held_app, !held_incref.
  rewrite held_decrefs_absent.
  - unfold indicator. rewrite bool_decide_eq_true_2 by done.
    rewrite bool_decide_eq_false_2 by congruence. lia.
  - unfold referents, h2, h1. simpl. rewrite Hcm. simpl.
    rewrite list_insert_insert_eq.
    intros [Hin|Hin]%in_app_or.
    + apply present_insert_in in Hin as [?|?]; [congruence|done].
    + destruct Hin as [?|[]]. congruence.
Qed.

(** X18.  The collector's two views of a live instance agree: what
    [Atom_traverse] shows to a visitor that answers 0 is, object for
    object and in the same order, what [Atom_clear] releases. *)
Theorem traverse_and_clear_agree (visit : visitproc W) (h : Heap W) cm :
  class_map h = Some cm -> length (slots h) = member_count cm ->
  (forall o w0, In o (referents h) -> snd (visit o w0) = 0%Z) ->
  exists objs,
    logged (Atom_traverse visit h) = map (fun o => EvVisit o 0%Z) objs
    /\ logged (Atom_clear h) = map EvDecref objs
    /\ objs = present (slots h) ++ [class_map_ob cm].
Proof.
  intros Hcm Hlen Hzero. exists (present (slots h) ++ [class_map_ob cm]).
  split; [|split; [|done]].
  - rewrite (Atom_traverse_run visit h cm) by done.
    destruct (visit_list_zero visit (referents h) (host h) Hzero) as [Hl _].
    destruct (visit_list visit (referents h) (host h)) as [[l w] r].
    simpl in Hl. subst l. unfold logged, referents. simpl.
    by rewrite Hcm.
  - rewrite (Atom_clear_run h cm) by done. unfold logged. simpl.
    by rewrite map_app.
Qed.

End Ownership.

(** ** More runs in the small interpreter *)

Section MoreRuns.
Import Demo.
Import DemoRuntime.

Lemma interp_get_keeps_shape s n (h : Heap nat) :
  same_shape h (fst (PyObject_GenericGetAttr s n h)).
Proof. split; reflexivity. Qed.

Lemma interp_set_keeps_shape s n v (h : Heap nat) :
  same_shape h (fst (PyObject_GenericSetAttr s n v h)).
Proof. split; reflexivity. Qed.

Lemma filled_ok : atom_ok filled.
Proof. exists map. split; reflexivity. Qed.

Lemma do_default_holds_only_its_result_witness :
  held 117 (logged (do_default full 40 10 fresh)) = 1%Z
  /\ held 7 (logged (do_default full 40 10 fresh)) = 0%Z.
Proof.
  split.
  - exact (do_default_holds_only_its_result 117 full 40 10 fresh
             (logged (do_default full 40 10 fresh))
             (final (do_default full 40 10 fresh)) (Ret 117)
             eq_refl ltac:(discriminate)).
  - exact (do_default_holds_only_its_result 7 full 40 10 fresh
             (logged (do_default full 40 10 fresh))
             (final (do_default full 40 10 fresh)) (Ret 117)
             eq_refl ltac:(discriminate)).
Defined.

Lemma fresh_read_run :
  Atom_getattro 40 10 fresh
  = (logged (Atom_getattro 40 10 fresh), final (Atom_getattro 40 10 fresh),
     Ret 117).
Proof. vm_compute. reflexivity. Qed.

Lemma filled_read_run :
  Atom_getattro 40 11 filled
  = (logged (Atom_getattro 40 11 filled), final (Atom_getattro 40 11 filled),
     Ret 8).
Proof. vm_compute. reflexivity. Qed.

Lemma getattro_member_references_witness :
  held 117 (logged (Atom_getattro 40 10 fresh)) = 2%Z
  /\ held 8 (logged (Atom_getattro 40 11 filled)) = 1%Z.
Proof.
  split.
  - exact (getattro_member_references 117 40 10 fresh map full 0 None
             (logged (Atom_getattro 40 10 fresh))
             (final (Atom_getattro 40 10 fresh)) (Ret 117)
             eq_refl eq_refl eq_refl fresh_read_run ltac:(discriminate)).
  - exact (getattro_member_references 8 40 11 filled map bare 1 (Some 8)
             (logged (Atom_getattro 40 11 filled))
             (final (Atom_getattro 40 11 filled)) (Ret 8)
             eq_refl eq_refl eq_refl filled_read_run ltac:(discriminate)).
Defined.

Lemma vetoed_run :
  do_post_setattr vetoed 40 10 2 5 fresh
  = (logged (do_post_setattr vetoed 40 10 2 5 fresh),
     final (do_post_setattr vetoed 40 10 2 5 fresh),
     Ret ((-1)%Z, Some (PyErr 55))).
Proof. vm_compute. reflexivity. Qed.

Lemma observed_run :
  do_post_setattr observed 40 10 2 5 fresh
  = (logged (do_post_setattr observed 40 10 2 5 fresh),
     final (do_post_setattr observed 40 10 2 5 fresh),
     Ret (0%Z, None)).
Proof. vm_compute. reflexivity. Qed.

Lemma starved_run :
  do_post_setattr (HH := no_tuples) vetoed 40 10 2 5 fresh
  = (logged (do_post_setattr (HH := no_tuples) vetoed 40 10 2 5 fresh),
     final (do_post_setattr (HH := no_tuples) vetoed 40 10 2 5 fresh),
     Ret (0%Z, Some MemoryError)).
Proof. vm_compute. reflexivity. Qed.

Lemma do_post_setattr_outcomes_witness :
  (exists f e,
     post_setattr_handler vetoed = Some f
     /\ Some (PyErr 55) = Some e
     /\ calls_of (logged (do_post_setattr vetoed 40 10 2 5 fresh))
        = [EvCall f [member_ob vetoed; 40; 10; 2; 5] (Raise e)])
  /\ logged (do_post_setattr (HH := no_tuples) vetoed 40 10 2 5 fresh) = [].
Proof.
  split.
  - destruct (do_post_setattr_outcomes vetoed 40 10 2 5 fresh
                (logged (do_post_setattr vetoed 40 10 2 5 fresh))
                (final (do_post_setattr vetoed 40 10 2 5 fresh))
                (-1)%Z (Some (PyErr 55)) vetoed_run)
      as [(Hz & _)|[(_ & Hcall)|(Hz & _)]].
    + discriminate Hz.
    + exact Hcall.
    + discriminate Hz.
  - destruct (do_post_setattr_outcomes (HH := no_tuples)
                vetoed 40 10 2 5 fresh
                (logged (do_post_setattr (HH := no_tuples)
                           vetoed 40 10 2 5 fresh))
                (final (do_post_setattr (HH := no_tuples)
                          vetoed 40 10 2 5 fresh))
                0%Z (Some MemoryError) starved_run)
      as [(_ & Hp & _)|[(Hz & _)|(_ & _ & Hl & _)]].
    + discriminate Hp.
    + discriminate Hz.
    + exact Hl.
Defined.

Lemma do_post_setattr_keeps_no_reference_witness :
  held 7 (logged (do_post_setattr observed 40 10 2 5 fresh)) = 0%Z
  /\ held 5 (logged (do_post_setattr vetoed 40 10 2 5 fresh)) = 0%Z.
Proof.
  split.
  - exact (do_post_setattr_keeps_no_reference 7 observed 40 10 2 5 fresh
             (logged (do_post_setattr observed 40 10 2 5 fresh))
             (final (do_post_setattr observed 40 10 2 5 fresh))
             0%Z None observed_run).
  - exact (do_post_setattr_keeps_no_reference 5 vetoed 40 10 2 5 fresh
             (logged (do_post_setattr vetoed 40 10 2 5 fresh))
             (final (do_post_setattr vetoed 40 10 2 5 fresh))
             (-1)%Z (Some (PyErr 55)) vetoed_run).
Defined.

Lemma do_default_stops_at_first_failure_witness :
  let calls := calls_of (logged (do_default refusing 40 10 fresh)) in
  let dargs := [member_ob refusing; 40; 10] in
  let pre := [member_ob refusing; 40; 10; NullObject] in
  failed_call (default_handler refusing) dargs (PyErr 55) calls
  \/ (exists c tail,
        calls = handler_call (default_handler refusing) dargs c ++ tail
        /\ (default_handler refusing = None -> c = Py_None)
        /\ failed_call (validate_handler refusing) (pre ++ [c])
             (PyErr 55) tail)
  \/ (exists c v1 tail,
        calls = handler_call (default_handler refusing) dargs c
                ++ stage_call (validate_handler refusing) pre c v1 ++ tail
        /\ (default_handler refusing = None -> c = Py_None)
        /\ (validate_handler refusing = None -> v1 = c)
        /\ failed_call (post_validate_handler refusing) (pre ++ [v1])
             (PyErr 55) tail).
Proof.
  exact (do_default_stops_at_first_failure refusing 40 10 fresh
           (logged (do_default refusing 40 10 fresh))
           (final (do_default refusing 40 10 fresh)) (PyErr 55) eq_refl).
Defined.

Lemma layout_is_kept_witness :
  atom_ok (final (Atom_getattro 40 10 filled))
  /\ atom_ok (final (Atom_setattro 40 11 None filled))
  /\ atom_ok (final (Atom_init 40 [] (Some [(10, 5); (900, 6)]) filled)).
Proof.
  exact (layout_is_kept interp_keeps_shape interp_get_keeps_shape
           interp_set_keeps_shape 40 10 None [] (Some [(10, 5); (900, 6)])
           filled filled_ok).
Defined.

Lemma write_leaves_other_members_witness :
  let written := final (Atom_setattro 40 11 (Some 77) filled) in
  slots written !! 3 = slots filled !! 3
  /\ result (Atom_getattro 40 13 written) = Ret 9.
Proof.
  destruct (write_leaves_other_members 40 11 (Some 77) filled map bare 1
              eq_refl eq_refl ltac:(simpl; lia)) as (Hother & _ & Hread).
  split.
  - apply Hother. lia.
  - apply (Hread 13 checked 3 9 eq_refl ltac:(lia) eq_refl).
Defined.

Lemma init_members_never_fails_witness :
  let run := Atom_init 40 [] (Some [(10, 5); (11, 6); (10, 7)]) fresh in
  result run = Ret 0%Z
  /\ logged run = [EvIncref 5; EvIncref 6; EvIncref 7]
  /\ slots (final run) !! 0 = Some (Some 7).
Proof.
  assert (Forall (fun kv => exists m i,
                    members map (fst kv) = Some (m, i)
                    /\ i < length (slots fresh))
            [(10, 5); (11, 6); (10, 7)]) as Hall.
  { repeat (constructor;
            [eexists _, _; split; [reflexivity|simpl; lia]|]).
    constructor. }
  destruct (init_members_never_fails 40 map [(10, 5); (11, 6); (10, 7)]
              fresh eq_refl Hall) as (Hr & Hl & _ & _ & Hlast).
  split; [exact Hr|]. split; [exact Hl|].
  apply (Hlast [(10, 5); (11, 6)] 10 7 [] full 0 eq_refl eq_refl).
  constructor.
Defined.

Lemma traverse_reports_referents_witness :
  logged (Atom_traverse count_visit filled)
  = [EvVisit 8 0; EvVisit 9 0; EvVisit 30 0]
  /\ result (Atom_traverse count_visit filled) = Ret 0%Z.
Proof.
  destruct (traverse_reports_referents count_visit filled map
              eq_refl eq_refl (fun _ _ _ => eq_refl)) as (Hl & Hr & _).
  exact (conj Hl Hr).
Defined.

Lemma traverse_stops_at_first_refusal_witness :
  logged (Atom_traverse refuse_9 filled) = [EvVisit 8 0; EvVisit 9 2]
  /\ result (Atom_traverse refuse_9 filled) = Ret 2%Z.
Proof.
  destruct (traverse_stops_at_first_refusal refuse_9 filled map
              [8] 9 [30] 2%Z eq_refl eq_refl eq_refl)
    as (Hl & Hr & _).
  - intros x w0 [<-|[]]. reflexivity.
  - intros w0. reflexivity.
  - discriminate.
  - exact (conj Hl Hr).
Defined.

Lemma Atom_new_fresh_instance_witness :
  let run := Atom_new (RT := plenty) 50 (Some (IsClassMap map)) blank in
  result run = Ret 40
  /\ slots (final run) = [None; None; None; None; None]
  /\ atom_ok (final run).
Proof.
  destruct (Atom_new_fresh_instance (RT := plenty) 50 map blank 0 40
              eq_refl (fun _ => eq_refl) eq_refl
              ltac:(vm_compute; reflexivity))
    as (Hr & _ & Hs & _ & Hok & _).
  exact (conj Hr (conj Hs Hok)).
Defined.

Lemma Atom_new_failure_leaves_nothing_witness :
  let run := Atom_new (RT := no_memory) 50 (Some (IsClassMap map)) blank in
  result run = Raise MemoryError
  /\ (forall o, ob_refcnt (final run) o = ob_refcnt blank o)
  /\ Atom_new (RT := no_memory) 50 None blank
     = ([], blank, Raise (SystemError "atom type has no class map")).
Proof.
  destruct (Atom_new_failure_leaves_nothing (RT := no_memory) 50 blank)
    as (Hnone & _ & Hfail).
  destruct (Hfail map 0 MemoryError eq_refl) as (Hr & _ & _ & Hrc).
  exact (conj Hr (conj Hrc Hnone)).
Defined.

Lemma Atom_new_slot_allocation_failure_witness :
  let run := Atom_new (RT := no_slots) 50 (Some (IsClassMap map)) blank in
  result run = Raise MemoryError
  /\ logged run = [EvIncref 30; EvDecref 40; EvDecref 30].
Proof.
  destruct (Atom_new_slot_allocation_failure (RT := no_slots) 50 map blank
              0 40 eq_refl ltac:(simpl; lia) eq_refl) as (_ & Hok & _).
  destruct (Hok (ex_intro _ 0 (conj eq_refl (le_n 0)))) as (Hr & Hl & _).
  exact (conj Hr Hl).
Defined.

(** The same failed construction with a [ClassMap_MemberCount] that reads
    through NULL. *)
Example Atom_new_slot_allocation_failure_unchecked :
  let run := Atom_new (CH := unchecked) (RT := no_slots) 50
               (Some (IsClassMap map)) blank in
  result run = Fault
  /\ logged run = [EvIncref 30; EvDecref 40]
  /\ ob_refcnt (final run) 30 = 2%Z.
Proof. repeat split; reflexivity. Qed.

Lemma Atom_dealloc_releases_referents_witness :
  logged (Atom_dealloc (RT := plenty) 40 filled)
  = [EvDecref 8; EvDecref 9; EvDecref 30]
  /\ slots (final (Atom_dealloc (RT := plenty) 40 filled)) = [].
Proof.
  destruct (Atom_dealloc_releases_referents (RT := plenty) 40 filled map
              eq_refl eq_refl) as (_ & Hl & _ & Hs & _).
  exact (conj Hl Hs).
Defined.

Lemma Atom_new_then_dealloc_witness :
  let made := Atom_new (RT := plenty) 50 (Some (IsClassMap map)) blank in
  let gone := Atom_dealloc (RT := plenty) 40 (final made) in
  result gone = Ret tt
  /\ ob_refcnt (final gone) 30 = ob_refcnt blank 30.
Proof.
  destruct (Atom_new_then_dealloc (RT := plenty) 50 map blank 0 40
              eq_refl (fun _ => eq_refl) eq_refl
              ltac:(vm_compute; reflexivity))
    as (Hr & _ & Hrc).
  split; [exact Hr|]. apply Hrc. lia.
Defined.

Lemma overwritten_value_is_never_released_witness :
  let first := Atom_setattro 40 10 (Some 77) filled in
  let second := Atom_setattro 40 10 (Some 78) (final first) in
  let gone := Atom_dealloc (RT := plenty) 40 (final second) in
  result gone = Ret tt
  /\ held 77 (logged first ++ logged second ++ logged gone) = 1%Z.
Proof.
  destruct (overwritten_value_is_never_released (RT := plenty)
              40 10 77 78 filled map full 0 eq_refl eq_refl eq_refl
              ltac:(simpl; lia) ltac:(discriminate) ltac:(discriminate))
    as (Hr & _ & Hheld).
  - simpl. intros [?|[?|[]]]; discriminate.
  - exact (conj Hr Hheld).
Defined.

Lemma traverse_and_clear_agree_witness :
  exists objs,
    logged (Atom_traverse count_visit filled)
    = List.map (fun o => EvVisit o 0%Z) objs
    /\ logged (Atom_clear filled) = List.map EvDecref objs
    /\ objs = present (slots filled) ++ [class_map_ob map].
Proof.
  exact (traverse_and_clear_agree count_visit filled map
           eq_refl eq_refl (fun _ _ _ => eq_refl)).
Defined.

Lemma Atom_dealloc_after_clear_witness :
  let run := Atom_dealloc (RT := plenty) 40 (final (Atom_clear filled)) in
  logged run = [] /\ result run = Ret tt /\ slots (final run) = [].
Proof.
  destruct (Atom_dealloc_after_clear (RT := plenty) 40 filled map
              eq_refl eq_refl) as (Hl & _ & _ & Hok & _).
  destruct (Hok (ex_intro _ 0 (conj eq_refl (Nat.le_0_l _)))) as (Hr & Hs).
  exact (conj Hl (conj Hr Hs)).
Defined.

(** The same destruction with a [ClassMap_MemberCount] that reads through
    NULL. *)
Example Atom_dealloc_after_clear_unchecked :
  Atom_dealloc (CH := unchecked) (RT := plenty) 40 (final (Atom_clear filled))
  = ([], final (Atom_clear filled), Fault).
Proof. reflexivity. Qed.

End MoreRuns.
